(** * The parallel agent manager and the token estimator of the RLM plugin

    A shallow embedding of [src/agent_manager.py] (class
    [ParallelAgentManager]) and of the token heuristic of
    [benchmarks/token_efficiency_analyzer.py] (class
    [TokenEfficiencyAnalyzer]), with the properties that the
    specification states about them.

    Layout: the Python values the code handles ([Py]), the two dataclasses
    ([ChunkTask], [Result]), the manager ([AgentManager], and [AnyWorker]
    for a worker callable that raises outside [Exception]), the estimator
    ([TokenEfficiencyAnalyzer]), the parallel strategy of the benchmark
    runner ([RLMBenchmark]); then the lemmas, grouped by subject. *)

From Stdlib Require Import Strings.String Strings.Ascii Strings.Byte DecimalString.
From Stdlib Require Import Floats Uint63.
From Stdlib Require Import ZArith NArith Bool Lia List Permutation Sorted.
Import ListNotations.

Set Warnings "-inexact-float,-register-all".

(* ================================================================== *)
(** * Python values *)
(* ================================================================== *)

Module Py.

(** A Python [str] is a sequence of Unicode code points: [len] is
    [length], [s[a:b]] is [slice s a b] (below), [+] is [++]. *)
Definition codepoint := N.
Definition str := list codepoint.

(** A literal of the source text. *)
Definition lit (s : string) : str :=
  map N_of_ascii (list_ascii_of_string s).

(** The line feed written [\n] in the source literals. *)
Definition nl : str := [10%N].

Fixpoint str_eqb (a b : str) : bool :=
  match a, b with
  | [], [] => true
  | x :: a', y :: b' => N.eqb x y && str_eqb a' b'
  | _, _ => false
  end.

(** [str(i)] and [f"{i}"] for an [int]: decimal digits, [-] for negatives. *)
Definition str_of_int (i : Z) : str :=
  lit (NilZero.string_of_int (Z.to_int i)).

(** [sep.join(parts)]. *)
Fixpoint join (sep : str) (parts : list str) : str :=
  match parts with
  | [] => []
  | p :: rest =>
      match rest with
      | [] => p
      | _ :: _ => p ++ sep ++ join sep rest
      end
  end.

Fixpoint startswith (prefix s : str) : bool :=
  match prefix, s with
  | [], _ => true
  | _ :: _, [] => false
  | x :: prefix', y :: s' => N.eqb x y && startswith prefix' s'
  end.

(** [needle in hay] for two strings. *)
Fixpoint contains (needle hay : str) : bool :=
  startswith needle hay
  || match hay with
     | [] => false
     | _ :: hay' => contains needle hay'
     end.

(** [str.isspace] for one character: the code points CPython lists in
    [_PyUnicode_IsWhitespace]. *)
Definition isspace (c : codepoint) : bool :=
  ((9 <=? c) && (c <=? 13) || (28 <=? c) && (c <=? 32)
   || (c =? 133) || (c =? 160) || (c =? 5760)
   || (8192 <=? c) && (c <=? 8202)
   || (c =? 8232) || (c =? 8233) || (c =? 8239) || (c =? 8287)
   || (c =? 12288))%N.

(** [s.split()] without arguments: the maximal runs of non-space
    characters; [word] is the run being read. *)
Fixpoint split_from (word : str) (s : str) : list str :=
  match s with
  | [] => match word with [] => [] | _ :: _ => [word] end
  | c :: s' =>
      if isspace c
      then match word with
           | [] => split_from [] s'
           | _ :: _ => word :: split_from [] s'
           end
      else split_from (word ++ [c]) s'
  end.

Definition split (s : str) : list str := split_from [] s.

(** The values that flow through the manager as [Any]: chunk payloads,
    worker replies, aggregated contents. A [dict] keeps its insertion
    order; its keys are strings. *)
Inductive pyval :=
| PNone
| PStr (s : str)
| PInt (i : Z)
| PList (xs : list pyval)
| PDict (items : list (str * pyval)).

Definition dict := list (str * pyval).

(** [d.get(key)] *)
Fixpoint dict_get (d : dict) (key : str) : option pyval :=
  match d with
  | [] => None
  | (k, v) :: d' => if str_eqb k key then Some v else dict_get d' key
  end.

(** [d[key] = v]: an existing key keeps its position. *)
Fixpoint dict_set (d : dict) (key : str) (v : pyval) : dict :=
  match d with
  | [] => [(key, v)]
  | (k, w) :: d' =>
      if str_eqb k key then (k, v) :: d' else (k, w) :: dict_set d' key v
  end.

(** [d.update(other)] *)
Definition dict_update (d other : dict) : dict :=
  fold_left (fun acc kv => dict_set acc (fst kv) (snd kv)) other d.

Definition isinstance_str (v : pyval) : bool :=
  match v with PStr _ => true | _ => false end.

Definition isinstance_dict (v : pyval) : bool :=
  match v with PDict _ => true | _ => false end.

(** Two builtins are kept abstract. [repr_container] is [str()] of a
    list or of a dict (Python's [repr], which depends on the Unicode
    database). [py_sum] is [sum()] over floats, whose rounding differs
    between interpreter versions. *)
Class Builtins := {
  repr_container : pyval -> str;
  py_sum : list float -> float
}.

(** [str(v)] *)
Definition py_str {B : Builtins} (v : pyval) : str :=
  match v with
  | PStr s => s
  | PNone => lit "None"
  | PInt i => str_of_int i
  | PList _ | PDict _ => repr_container v
  end.

(** An exception object whose class is [Exception] or derives from it;
    [message] is what [str(e)] returns. *)
Inductive exc := Exc (message : str).

Definition str_of_exc (e : exc) : str :=
  match e with Exc message => message end.

(** The result of evaluating a Python expression that returns or raises
    an instance of [Exception]. What else a call of foreign code may do
    is [ending], below. *)
Inductive outcome (A : Type) :=
| Returned (a : A)
| Raised (e : exc).
Arguments Returned {A} a.
Arguments Raised {A} e.

Definition bind {A B} (m : outcome A) (k : A -> outcome B) : outcome B :=
  match m with
  | Returned a => k a
  | Raised e => Raised e
  end.

(** [try: body  except Exception as e: handler(e)], for a body that
    raises nothing but instances of [Exception]: the handler sees every
    exception. *)
Definition try_except {A} (body : outcome A) (handler : exc -> outcome A)
  : outcome A :=
  match body with
  | Returned a => Returned a
  | Raised e => handler e
  end.

(** How a call of arbitrary code ends: like an expression above
    ([Ends]), or with an exception whose class derives from
    [BaseException] and not from [Exception] ([Escapes]). The exceptions
    meant are [SystemExit], which [sys.exit()] raises, and
    [KeyboardInterrupt]; which of the two, and with which arguments, is
    not recorded. *)
Inductive ending (A : Type) :=
| Ends (o : outcome A)
| Escapes.
Arguments Ends {A} o.
Arguments Escapes {A}.

Definition ending_bind {X Y} (m : ending X) (k : X -> ending Y) : ending Y :=
  match m with
  | Ends (Returned a) => k a
  | Ends (Raised e) => Ends (Raised e)
  | Escapes => Escapes
  end.

(** [try: body  except Exception as e: handler(e)] for any body: a
    [SystemExit] or [KeyboardInterrupt] is not an [Exception] and passes
    the handler. *)
Definition except_Exception {A} (body : ending A) (handler : exc -> ending A)
  : ending A :=
  match body with
  | Ends (Returned a) => Ends (Returned a)
  | Ends (Raised e) => handler e
  | Escapes => Escapes
  end.

(** [range(start, stop, step)] *)
Definition range (start stop step : Z) : outcome (list Z) :=
  if (step =? 0)%Z then Raised (Exc (lit "range() arg 3 must not be zero"))
  else
    let count :=
      (if 0 <? step
       then (stop - start + step - 1) / step
       else (start - stop - step - 1) / (- step))%Z in
    Returned (map (fun k => (start + Z.of_nat k * step)%Z)
                  (seq 0 (Z.to_nat count))).

(** [l[lo:hi]] with Python's treatment of negative and oversized bounds. *)
Definition clamp_index (i len : Z) : Z :=
  if (i <? 0)%Z then Z.max 0 (i + len) else Z.min i len.

Definition slice {A} (l : list A) (lo hi : Z) : list A :=
  let len := Z.of_nat (length l) in
  let a := clamp_index lo len in
  let b := clamp_index hi len in
  firstn (Z.to_nat (b - a)) (skipn (Z.to_nat a) l).

(** An instance for worked examples. [repr] is Python's [repr] for
    values whose strings are ASCII (a character above U+007F is taken to
    be printable); the sum adds from left to right. *)
Definition hex_digit (n : N) : codepoint :=
  (if n <? 10 then 48 + n else 87 + n)%N.

(** One character inside the quotes of [repr(s)]; 92 is the backslash,
    followed by [t], [n], [r] or [x] and two hexadecimal digits. *)
Definition repr_char (quote c : codepoint) : str :=
  (if (c =? quote) || (c =? 92) then [92; c]
   else if c =? 9 then [92; 116]
   else if c =? 10 then [92; 110]
   else if c =? 13 then [92; 114]
   else if (c <? 32) || (c =? 127)
        then [92; 120; hex_digit (c / 16); hex_digit (c mod 16)]
        else [c])%N.

(** [repr(s)] for a string: single quotes, unless the string holds a
    single quote and no double quote. *)
Definition repr_str (s : str) : str :=
  let quote :=
    (if existsb (N.eqb 39) s && negb (existsb (N.eqb 34) s) then 34 else 39)%N in
  [quote] ++ flat_map (repr_char quote) s ++ [quote].

Fixpoint repr (v : pyval) : str :=
  match v with
  | PNone => lit "None"
  | PStr s => repr_str s
  | PInt i => str_of_int i
  | PList xs => lit "[" ++ join (lit ", ") (map repr xs) ++ lit "]"
  | PDict items =>
      lit "{"
      ++ join (lit ", ")
           (map (fun item =>
                   match item with
                   | (key, value) => repr_str key ++ lit ": " ++ repr value
                   end)
                items)
      ++ lit "}"
  end.

Definition example_builtins : Builtins :=
  {| repr_container := repr;
     py_sum := fun xs => fold_left PrimFloat.add xs 0%float |}.

End Py.

Notation "x <- m ;; k" := (Py.bind m (fun x => k))
  (at level 61, m at next level, right associativity).

Notation "x <~ m ;; k" := (Py.ending_bind m (fun x => k))
  (at level 61, m at next level, right associativity).

Import Py.

(* ================================================================== *)
(** * The dataclasses *)
(* ================================================================== *)

(** [ChunkTask]: task for processing a chunk. The defaults of the
    dataclass ([task_type = "extraction"], [query = None]) are not used by
    the manager, which passes every field. *)
Module ChunkTask.
Record t := {
  id : Z;
  content : pyval;
  task_type : str;
  query : option str;
  metadata : dict
}.
End ChunkTask.

(** [Result]: result from chunk processing. *)
Module Result.
Record t := {
  chunk_id : Z;
  content : pyval;
  processing_time_ms : float;
  model_used : str;
  error : option str
}.

(** The default of the dataclass field [model_used]. *)
Definition default_model_used : str := lit "haiku".
End Result.

(* ================================================================== *)
(** * ParallelAgentManager *)
(* ================================================================== *)

Module AgentManager.

(** The LM worker callable [llm_query_fn(prompt, model=model)]: it
    returns a value or raises an instance of [Exception]. A callable
    that raises outside [Exception] is followed in [AnyWorker]. *)
Definition worker := str -> str -> outcome pyval.

(** The attributes of a manager the methods read. [executor_shutdown]
    is the state of [self._executor], the pool created by [__init__]
    and shut down by [cleanup]. *)
Record t := {
  max_concurrent : Z;
  llm_query_fn : option worker;
  executor_shutdown : bool
}.

(** [ThreadPoolExecutor(max_workers=n)] raises [ValueError] unless
    [n > 0]. *)
Definition ThreadPoolExecutor (max_workers : Z) : outcome unit :=
  if (max_workers <=? 0)%Z
  then Raised (Exc (lit "max_workers must be greater than 0"))
  else Returned tt.

Definition __init__ (max_concurrent : Z) (llm_query_fn : option worker)
  : outcome t :=
  _ <- ThreadPoolExecutor max_concurrent ;;
  Returned {| max_concurrent := max_concurrent;
              llm_query_fn := llm_query_fn;
              executor_shutdown := false |}.

Definition cleanup (self : t) : t :=
  {| max_concurrent := max_concurrent self;
     llm_query_fn := llm_query_fn self;
     executor_shutdown := true |}.

(** What the environment decides in one run: [order] is the order in
    which [as_completed] yields the futures (indices into the list of
    submitted futures), [clock] gives for the task with a given id the
    two readings of [time.time()] that [_process_single_chunk] takes. *)
Record schedule := {
  order : list nat;
  clock : Z -> float * float
}.

Definition elapsed_ms (readings : float * float) : float :=
  ((snd readings - fst readings) * 1000)%float.

(** [chunk.get('content', chunk)] *)
Definition chunk_payload (chunk : dict) : pyval :=
  match dict_get chunk (lit "content") with
  | Some v => v
  | None => PDict chunk
  end.

(** The list comprehension that opens both dispatch methods, with
    [enumerate] counting from [i]. *)
Fixpoint build_tasks_from (i : nat) (chunks : list dict) (query : str)
  : list ChunkTask.t :=
  match chunks with
  | [] => []
  | chunk :: chunks' =>
      {| ChunkTask.id := Z.of_nat i;
         ChunkTask.content := chunk_payload chunk;
         ChunkTask.task_type := lit "query";
         ChunkTask.query := Some query;
         ChunkTask.metadata := chunk |}
      :: build_tasks_from (S i) chunks' query
  end.

Definition build_tasks (chunks : list dict) (query : str)
  : list ChunkTask.t :=
  build_tasks_from 0 chunks query.

Definition _select_model (task : ChunkTask.t) : str :=
  if str_eqb (ChunkTask.task_type task) (lit "extraction") then lit "haiku"
  else if str_eqb (ChunkTask.task_type task) (lit "analysis") then lit "sonnet"
  else if str_eqb (ChunkTask.task_type task) (lit "synthesis") then lit "sonnet"
  else lit "haiku".

(** [if task.query:] holds for a string that is neither [None] nor
    empty. *)
Definition truthy_query (q : option str) : option str :=
  match q with
  | Some (c :: s) => Some (c :: s)
  | Some [] | None => None
  end.

Definition _build_prompt {B : Builtins} (task : ChunkTask.t) : str :=
  match truthy_query (ChunkTask.query task) with
  | Some q =>
      lit "Process this chunk of data to answer the following query:"
      ++ nl ++ nl
      ++ lit "Query: " ++ q ++ nl ++ nl
      ++ lit "Chunk " ++ str_of_int (ChunkTask.id task) ++ lit ":" ++ nl
      ++ slice (py_str (ChunkTask.content task)) 0 10000 ++ nl ++ nl
      ++ lit "Provide a concise response focusing only on information relevant to the query."
  | None =>
      lit "Extract key information from this chunk:" ++ nl ++ nl
      ++ lit "Chunk " ++ str_of_int (ChunkTask.id task) ++ lit ":" ++ nl
      ++ slice (py_str (ChunkTask.content task)) 0 10000 ++ nl ++ nl
      ++ lit "Provide a structured summary of the main points."
  end.

(** The reply used when no worker is configured. *)
Definition placeholder {B : Builtins} (task : ChunkTask.t) : str :=
  lit "[Processed chunk " ++ str_of_int (ChunkTask.id task) ++ lit ": "
  ++ str_of_int (Z.of_nat (length (py_str (ChunkTask.content task))))
  ++ lit " chars]".

Definition _process_single_chunk {B : Builtins}
  (self : t) (readings : float * float) (task : ChunkTask.t)
  : outcome Result.t :=
  try_except
    (content <-
       match llm_query_fn self with
       | None => Returned (PStr (placeholder task))
       | Some llm =>
           let model := _select_model task in
           let prompt := _build_prompt task in
           llm prompt model
       end ;;
     Returned {| Result.chunk_id := ChunkTask.id task;
                 Result.content := content;
                 Result.processing_time_ms := elapsed_ms readings;
                 Result.model_used := _select_model task;
                 Result.error := None |})
    (fun e =>
       Returned {| Result.chunk_id := ChunkTask.id task;
                   Result.content := PNone;
                   Result.processing_time_ms := elapsed_ms readings;
                   Result.model_used := Result.default_model_used;
                   Result.error := Some (str_of_exc e) |}).

(** The Result both dispatch methods build themselves when a future or
    an awaited task raised. *)
Definition dispatcher_failure (e : exc) : Result.t :=
  {| Result.chunk_id := (-1)%Z;
     Result.content := PNone;
     Result.processing_time_ms := 0%float;
     Result.model_used := Result.default_model_used;
     Result.error := Some (str_of_exc e) |}.

(** [results.sort(key=lambda r: r.chunk_id)]: the sort of Python lists
    is stable, so its result is the one of any stable sort; this one
    inserts each element behind the elements whose key is not larger. *)
Fixpoint insert_by_chunk_id (r : Result.t) (sorted : list Result.t)
  : list Result.t :=
  match sorted with
  | [] => [r]
  | x :: sorted' =>
      if (Result.chunk_id x <=? Result.chunk_id r)%Z
      then x :: insert_by_chunk_id r sorted'
      else r :: x :: sorted'
  end.

Definition sort_by_chunk_id (results : list Result.t) : list Result.t :=
  fold_left (fun sorted r => insert_by_chunk_id r sorted) results [].

(** [as_completed(futures)]: the futures in the order of the schedule. *)
Definition as_completed {A} (order : list nat) (futures : list A) : list A :=
  flat_map (fun i => match nth_error futures i with
                     | Some f => [f]
                     | None => []
                     end) order.

(** Every task is submitted to a pool created for the call.
    [future.result(timeout=60)] is asked of a future that [as_completed]
    has yielded, a finished one: it returns the Result of the future or
    raises what the future ended with. *)
Definition process_chunks_sync {B : Builtins}
  (self : t) (sched : schedule) (chunks : list dict) (query : str)
  : outcome (list Result.t) :=
  let chunk_tasks := build_tasks chunks query in
  _ <- ThreadPoolExecutor (max_concurrent self) ;;
  let futures :=
    map (fun task =>
           _process_single_chunk self (clock sched (ChunkTask.id task)) task)
        chunk_tasks in
  let results :=
    fold_left
      (fun results future =>
         match future with
         | Returned result => results ++ [result]
         | Raised e => results ++ [dispatcher_failure e]
         end)
      (as_completed (order sched) futures) [] in
  Returned (sort_by_chunk_id results).

Definition _batch_tasks (tasks : list ChunkTask.t) (batch_size : Z)
  : outcome (list (list ChunkTask.t)) :=
  starts <- range 0 (Z.of_nat (length tasks)) batch_size ;;
  Returned (map (fun i => slice tasks i (i + batch_size)) starts).

(** [loop.run_in_executor(self._executor, ...)] submits to the pool of
    the manager; a pool that was shut down refuses the submission. *)
Definition _process_chunk_async {B : Builtins}
  (self : t) (clock : Z -> float * float) (task : ChunkTask.t)
  : outcome Result.t :=
  if executor_shutdown self
  then Raised (Exc (lit "cannot schedule new futures after shutdown"))
  else _process_single_chunk self (clock (ChunkTask.id task)) task.

(** The batches run one after the other;
    [asyncio.gather(..., return_exceptions=True)] yields the outcomes of
    a batch in the order of its tasks. *)
Definition process_chunks_async {B : Builtins}
  (self : t) (clock : Z -> float * float) (chunks : list dict) (query : str)
  : outcome (list Result.t) :=
  let chunk_tasks := build_tasks chunks query in
  batches <- _batch_tasks chunk_tasks (max_concurrent self) ;;
  Returned
    (fold_left
       (fun tasks batch =>
          let batch_results := map (_process_chunk_async self clock) batch in
          fold_left
            (fun tasks result =>
               match result with
               | Raised e => tasks ++ [dispatcher_failure e]
               | Returned r => tasks ++ [r]
               end)
            batch_results tasks)
       batches []).

(** The mapping [aggregate_results] returns. *)
Record AggregatedReply := {
  aggregated : pyval;
  chunks_processed : nat;
  chunks_failed : nat;
  total_processing_time_ms : float;
  errors : list (Z * option str)
}.

Definition is_None {A} (o : option A) : bool :=
  match o with None => true | Some _ => false end.

(** The block [f"[Chunk {r.chunk_id}]:\n{r.content}"]. *)
Definition chunk_block {B : Builtins} (r : Result.t) : str :=
  lit "[Chunk " ++ str_of_int (Result.chunk_id r) ++ lit "]:" ++ nl
  ++ py_str (Result.content r).

Definition aggregate_results {B : Builtins} (results : list Result.t)
  : AggregatedReply :=
  let successful := filter (fun r => is_None (Result.error r)) results in
  let failed := filter (fun r => negb (is_None (Result.error r))) results in
  let total_time := py_sum (map Result.processing_time_ms results) in
  let aggregated_content :=
    if forallb (fun r => isinstance_str (Result.content r)) successful
    then PStr (join (nl ++ nl) (map chunk_block successful))
    else if forallb (fun r => isinstance_dict (Result.content r)) successful
    then PDict (fold_left
                  (fun acc r =>
                     match Result.content r with
                     | PDict d => dict_update acc d
                     | _ => acc
                     end)
                  successful [])
    else PList (map Result.content successful) in
  {| aggregated := aggregated_content;
     chunks_processed := length successful;
     chunks_failed := length failed;
     total_processing_time_ms := total_time;
     errors := map (fun r => (Result.chunk_id r, Result.error r)) failed |}.

(** ** Vocabulary of the statements *)

(** The states a manager object goes through: built by [__init__],
    then possibly cleaned up. *)
Inductive constructed : t -> Prop :=
| constructed_init max_concurrent llm_query_fn self :
    __init__ max_concurrent llm_query_fn = Returned self ->
    constructed self
| constructed_cleanup self :
    constructed self -> constructed (cleanup self).

(** [as_completed] yields each of the [n] submitted futures once. *)
Definition completes_each_once (sched : schedule) (n : nat) : Prop :=
  Permutation (order sched) (seq 0 n).

(** The Result the dispatcher appends for a future. *)
Definition settled (future : outcome Result.t) : Result.t :=
  match future with
  | Returned result => result
  | Raised e => dispatcher_failure e
  end.

(** The Result of one task in a run of [process_chunks_sync]. *)
Definition sync_result {B : Builtins} (self : t) (sched : schedule)
  (task : ChunkTask.t) : Result.t :=
  settled (_process_single_chunk self (clock sched (ChunkTask.id task)) task).

(** The Result of one task in a run of [process_chunks_async]. *)
Definition async_result {B : Builtins} (self : t) (clock : Z -> float * float)
  (task : ChunkTask.t) : Result.t :=
  settled (_process_chunk_async self clock task).

Definition chunk_id_le (a b : Result.t) : Prop :=
  (Result.chunk_id a <= Result.chunk_id b)%Z.

Definition chunk_id_lt (a b : Result.t) : Prop :=
  (Result.chunk_id a < Result.chunk_id b)%Z.

(** Ascending order of [chunk_id]. *)
Definition ascending (results : list Result.t) : Prop :=
  StronglySorted chunk_id_le results.

(** The text of a prompt before and after the payload; neither reads
    the payload. *)
Definition preamble (query : option str) (id : Z) : str :=
  match truthy_query query with
  | Some q =>
      lit "Process this chunk of data to answer the following query:"
      ++ nl ++ nl
      ++ lit "Query: " ++ q ++ nl ++ nl
      ++ lit "Chunk " ++ str_of_int id ++ lit ":" ++ nl
  | None =>
      lit "Extract key information from this chunk:" ++ nl ++ nl
      ++ lit "Chunk " ++ str_of_int id ++ lit ":" ++ nl
  end.

Definition epilogue (query : option str) : str :=
  match truthy_query query with
  | Some _ =>
      nl ++ nl
      ++ lit "Provide a concise response focusing only on information relevant to the query."
  | None =>
      nl ++ nl ++ lit "Provide a structured summary of the main points."
  end.

(** A Result and a reply with their timing fields blanked. *)
Definition untimed (r : Result.t) : Result.t :=
  {| Result.chunk_id := Result.chunk_id r;
     Result.content := Result.content r;
     Result.processing_time_ms := 0%float;
     Result.model_used := Result.model_used r;
     Result.error := Result.error r |}.

Definition untimed_reply (reply : AggregatedReply) : AggregatedReply :=
  {| aggregated := aggregated reply;
     chunks_processed := chunks_processed reply;
     chunks_failed := chunks_failed reply;
     total_processing_time_ms := 0%float;
     errors := errors reply |}.

(** Counting and listing by recursion over the Results, as the
    specification words the counters of a reply. *)
Fixpoint count_without_error (results : list Result.t) : nat :=
  match results with
  | [] => 0
  | r :: results' =>
      match Result.error r with
      | None => S (count_without_error results')
      | Some _ => count_without_error results'
      end
  end.

Fixpoint count_with_error (results : list Result.t) : nat :=
  match results with
  | [] => 0
  | r :: results' =>
      match Result.error r with
      | None => count_with_error results'
      | Some _ => S (count_with_error results')
      end
  end.

Fixpoint error_entries (results : list Result.t) : list (Z * option str) :=
  match results with
  | [] => []
  | r :: results' =>
      match Result.error r with
      | None => error_entries results'
      | Some e => (Result.chunk_id r, Some e) :: error_entries results'
      end
  end.

(** The text the specification describes for string replies: a block
    per Result without error, in sequence order, with a separator
    before every block but the first. *)
Fixpoint blocks_with_separators (first : bool) (results : list Result.t)
  : str :=
  match results with
  | [] => []
  | r :: results' =>
      match Result.error r, Result.content r with
      | None, PStr s =>
          (if first then [] else nl ++ nl)
          ++ lit "[Chunk " ++ str_of_int (Result.chunk_id r) ++ lit "]:"
          ++ nl ++ s
          ++ blocks_with_separators false results'
      | _, _ => blocks_with_separators first results'
      end
  end.

(** Every Result without error carries a string. *)
Definition successful_are_strings (results : list Result.t) : Prop :=
  forall r, In r results -> Result.error r = None ->
            exists s, Result.content r = PStr s.

(** ** Vocabulary of further statements *)

(** The value written last for [key] among the items of [d]; for a
    dict, whose keys are distinct, the value [d] has for [key]. *)
Definition lookup_last (d : dict) (key : str) : option pyval :=
  dict_get (rev d) key.

(** The items of the dict replies of the Results without error, in
    sequence order. *)
Definition successful_items (results : list Result.t) : dict :=
  flat_map (fun r =>
              match Result.error r, Result.content r with
              | None, PDict d => d
              | _, _ => []
              end)
           results.

(** Every Result without error carries a dict. *)
Definition successful_are_dicts (results : list Result.t) : Prop :=
  forall r, In r results -> Result.error r = None ->
            exists d, Result.content r = PDict d.

(** The error entries of the tasks on which the worker raises, in the
    order of the tasks. *)
Fixpoint worker_error_entries {B : Builtins}
  (llm_query_fn : option worker) (tasks : list ChunkTask.t)
  : list (Z * option str) :=
  match tasks with
  | [] => []
  | task :: tasks' =>
      match llm_query_fn with
      | Some llm =>
          match llm (_build_prompt task) (_select_model task) with
          | Raised e =>
              (ChunkTask.id task, Some (str_of_exc e))
              :: worker_error_entries llm_query_fn tasks'
          | Returned _ => worker_error_entries llm_query_fn tasks'
          end
      | None => worker_error_entries llm_query_fn tasks'
      end
  end.

End AgentManager.

(* ================================================================== *)
(** * ParallelAgentManager with an arbitrary callable *)
(* ================================================================== *)

(** [AgentManager] reads [llm_query_fn] as a worker that returns or
    raises an instance of [Exception]. The class does not enforce this:
    the callable may also leave with a [SystemExit] or a
    [KeyboardInterrupt]. This module follows such a callable through
    [__init__], [cleanup], [_process_single_chunk] and the two dispatch
    methods; what does not call the worker is taken from
    [AgentManager]. *)
Module AnyWorker.

Definition worker := str -> str -> ending pyval.

Record t := {
  max_concurrent : Z;
  llm_query_fn : option worker;
  executor_shutdown : bool
}.

Definition __init__ (max_concurrent : Z) (llm_query_fn : option worker)
  : outcome t :=
  _ <- AgentManager.ThreadPoolExecutor max_concurrent ;;
  Returned {| max_concurrent := max_concurrent;
              llm_query_fn := llm_query_fn;
              executor_shutdown := false |}.

Definition cleanup (self : t) : t :=
  {| max_concurrent := max_concurrent self;
     llm_query_fn := llm_query_fn self;
     executor_shutdown := true |}.

(** The handler is [except Exception as e]: an exception of the worker
    outside [Exception] leaves the method. *)
Definition _process_single_chunk {B : Builtins}
  (self : t) (readings : float * float) (task : ChunkTask.t)
  : ending Result.t :=
  except_Exception
    (content <~
       match llm_query_fn self with
       | None => Ends (Returned (PStr (AgentManager.placeholder task)))
       | Some llm =>
           let model := AgentManager._select_model task in
           let prompt := AgentManager._build_prompt task in
           llm prompt model
       end ;;
     Ends (Returned
             {| Result.chunk_id := ChunkTask.id task;
                Result.content := content;
                Result.processing_time_ms := AgentManager.elapsed_ms readings;
                Result.model_used := AgentManager._select_model task;
                Result.error := None |}))
    (fun e =>
       Ends (Returned
               {| Result.chunk_id := ChunkTask.id task;
                  Result.content := PNone;
                  Result.processing_time_ms :=
                    AgentManager.elapsed_ms readings;
                  Result.model_used := Result.default_model_used;
                  Result.error := Some (str_of_exc e) |})).

(** A pool thread stores whatever its call ends with in the future, and
    [future.result(timeout=60)] returns or raises it again in the
    caller. The handler around it is [except Exception]: a [SystemExit]
    or [KeyboardInterrupt] leaves the loop over [as_completed], the
    [with] block, which waits for the other futures, and the method. *)
Definition process_chunks_sync {B : Builtins}
  (self : t) (sched : AgentManager.schedule) (chunks : list dict)
  (query : str) : ending (list Result.t) :=
  let chunk_tasks := AgentManager.build_tasks chunks query in
  _ <~ Ends (AgentManager.ThreadPoolExecutor (max_concurrent self)) ;;
  let futures :=
    map (fun task =>
           _process_single_chunk self
             (AgentManager.clock sched (ChunkTask.id task)) task)
        chunk_tasks in
  results <~
    fold_left
      (fun collected future =>
         results <~ collected ;;
         except_Exception
           (result <~ future ;;
            Ends (Returned (results ++ [result])))
           (fun e =>
              Ends (Returned
                      (results ++ [AgentManager.dispatcher_failure e]))))
      (AgentManager.as_completed (AgentManager.order sched) futures)
      (Ends (Returned [])) ;;
  Ends (Returned (AgentManager.sort_by_chunk_id results)).

Definition _process_chunk_async {B : Builtins}
  (self : t) (clock : Z -> float * float) (task : ChunkTask.t)
  : ending Result.t :=
  if executor_shutdown self
  then Ends (Raised (Exc (lit "cannot schedule new futures after shutdown")))
  else _process_single_chunk self (clock (ChunkTask.id task)) task.

(** [await asyncio.gather(..., return_exceptions=True)]: the
    outcomes of the tasks in the order of the tasks, an [Exception]
    being returned as a value. A task that ends with [SystemExit] or
    [KeyboardInterrupt] raises it in the event loop, which stops: the
    exception reaches whoever runs the loop. *)
Fixpoint gather {A} (awaited : list (ending A)) : ending (list (outcome A)) :=
  match awaited with
  | [] => Ends (Returned [])
  | Escapes :: _ => Escapes
  | Ends o :: awaited' =>
      outcomes <~ gather awaited' ;;
      Ends (Returned (o :: outcomes))
  end.

Definition process_chunks_async {B : Builtins}
  (self : t) (clock : Z -> float * float) (chunks : list dict) (query : str)
  : ending (list Result.t) :=
  let chunk_tasks := AgentManager.build_tasks chunks query in
  batches <~
    Ends (AgentManager._batch_tasks chunk_tasks (max_concurrent self)) ;;
  fold_left
    (fun gathered batch =>
       tasks <~ gathered ;;
       batch_results <~ gather (map (_process_chunk_async self clock) batch) ;;
       Ends (Returned
               (fold_left
                  (fun tasks result =>
                     match result with
                     | Raised e =>
                         tasks ++ [AgentManager.dispatcher_failure e]
                     | Returned r => tasks ++ [r]
                     end)
                  batch_results tasks)))
    batches (Ends (Returned [])).

(** ** Vocabulary of the statements *)

Inductive constructed : t -> Prop :=
| constructed_init max_concurrent llm_query_fn self :
    __init__ max_concurrent llm_query_fn = Returned self ->
    constructed self
| constructed_cleanup self :
    constructed self -> constructed (cleanup self).

(** The callable of the manager raises nothing but instances of
    [Exception]. *)
Definition raises_only_exceptions (self : t) : Prop :=
  forall llm prompt model,
    llm_query_fn self = Some llm -> llm prompt model <> Escapes.

(** The manager does what [checked] does: same attributes, and a
    callable that ends as the worker of [checked] does. *)
Definition agrees (self : t) (checked : AgentManager.t) : Prop :=
  max_concurrent self = AgentManager.max_concurrent checked
  /\ executor_shutdown self = AgentManager.executor_shutdown checked
  /\ match llm_query_fn self, AgentManager.llm_query_fn checked with
     | None, None => True
     | Some llm, Some checked_llm =>
         forall prompt model, llm prompt model = Ends (checked_llm prompt model)
     | _, _ => False
     end.

End AnyWorker.

(* ================================================================== *)
(** * TokenEfficiencyAnalyzer: the token heuristic *)
(* ================================================================== *)

Module TokenEfficiencyAnalyzer.

(** [int(x)] for a float: truncation towards zero; it raises on an
    infinity or a NaN. *)
Definition int_of_float (x : float) : outcome Z :=
  match Prim2SF x with
  | S754_zero _ => Returned 0%Z
  | S754_finite s m e => Returned (cond_Zopp s (Z.shiftl (Zpos m) e))
  | S754_infinity _ =>
      Raised (Exc (lit "cannot convert float infinity to integer"))
  | S754_nan => Raised (Exc (lit "cannot convert float NaN to integer"))
  end.

(** The conversion of [len(words)] in [len(words) * 1.3]. A length is
    at most [sys.maxsize = 2^63 - 1], the range of [of_uint63]. *)
Definition float_of_len (n : nat) : float :=
  of_uint63 (Uint63.of_Z (Z.of_nat n)).

Definition code_indicators : list str :=
  map lit ["def "; "function "; "class "; "import "; "from ";
           "{"; "}"; "()"; "=>"; "=="; "!="; "&&"; "||"]%string.

Definition _looks_like_code (content : str) : bool :=
  let indicator_count :=
    list_sum (map (fun _ => 1)
                (filter (fun indicator => contains indicator content)
                        code_indicators)) in
  3 <=? indicator_count.

Definition _estimate_tokens_content (content : str) : outcome Z :=
  let words := split content in
  let punctuation_factor := 1.1%float in
  let code_factor :=
    if _looks_like_code content then 1.4%float else 1.0%float in
  let estimated_tokens :=
    (float_of_len (length words) * 1.3 * punctuation_factor * code_factor)%float in
  int_of_float estimated_tokens.

(** A path of the file system: a regular file that can be read, with
    its bytes, or an entry that [stat] sees and [open] refuses (no
    permission, a directory), with the size [stat] reports. *)
Inductive node :=
| Regular (data : list byte)
| Unreadable (st_size : N).

Definition filesystem := str -> option node.

Definition is_continuation (b : N) : bool := ((128 <=? b) && (b <=? 191))%N.

(** [bytes.decode('utf-8', errors='ignore')]: every well-formed
    sequence gives its code point, every other byte is dropped. *)
Fixpoint decode_utf8_ignore (bs : list N) : str :=
  match bs with
  | [] => []
  | b0 :: rest =>
      if (b0 <? 128)%N then b0 :: decode_utf8_ignore rest
      else
        match rest with
        | [] => []
        | b1 :: rest1 =>
            if ((194 <=? b0) && (b0 <=? 223) && is_continuation b1)%N
            then ((b0 - 192) * 64 + (b1 - 128))%N :: decode_utf8_ignore rest1
            else
              match rest1 with
              | [] => decode_utf8_ignore rest
              | b2 :: rest2 =>
                  if ((224 <=? b0) && (b0 <=? 239)
                      && is_continuation b1 && is_continuation b2
                      && negb ((b0 =? 224) && (b1 <? 160))
                      && negb ((b0 =? 237) && (160 <=? b1)))%N
                  then ((b0 - 224) * 4096 + (b1 - 128) * 64 + (b2 - 128))%N
                       :: decode_utf8_ignore rest2
                  else
                    match rest2 with
                    | [] => decode_utf8_ignore rest
                    | b3 :: rest3 =>
                        if ((240 <=? b0) && (b0 <=? 244)
                            && is_continuation b1 && is_continuation b2
                            && is_continuation b3
                            && negb ((b0 =? 240) && (b1 <? 144))
                            && negb ((b0 =? 244) && (144 <=? b1)))%N
                        then ((b0 - 240) * 262144 + (b1 - 128) * 4096
                              + (b2 - 128) * 64 + (b3 - 128))%N
                             :: decode_utf8_ignore rest3
                        else decode_utf8_ignore rest
                    end
              end
        end
  end.

(** The newline translation of a file opened in text mode with the
    default [newline=None]: the pair CR LF (13, 10) and a CR on its own
    are read as one LF. *)
Fixpoint universal_newlines (s : str) : str :=
  match s with
  | [] => []
  | c :: rest =>
      if (c =? 13)%N
      then 10%N :: match rest with
                   | [] => []
                   | c' :: rest' =>
                       if (c' =? 10)%N
                       then universal_newlines rest'
                       else universal_newlines rest
                   end
      else c :: universal_newlines rest
  end.

(** [open(file_path, 'r', encoding='utf-8', errors='ignore')] and
    [f.read()]: the bytes are decoded, then the newlines translated. *)
Definition read_text (fs : filesystem) (file_path : str) : outcome str :=
  match fs file_path with
  | Some (Regular data) =>
      Returned (universal_newlines (decode_utf8_ignore (map Byte.to_N data)))
  | Some (Unreadable _) => Raised (Exc (lit "Permission denied"))
  | None => Raised (Exc (lit "No such file or directory"))
  end.

(** [file_path.stat().st_size] *)
Definition stat_size (fs : filesystem) (file_path : str) : outcome Z :=
  match fs file_path with
  | Some (Regular data) => Returned (Z.of_nat (length data))
  | Some (Unreadable st_size) => Returned (Z.of_N st_size)
  | None => Raised (Exc (lit "No such file or directory"))
  end.

Definition _estimate_tokens_file (fs : filesystem) (file_path : str)
  : outcome Z :=
  try_except
    (content <- read_text fs file_path ;;
     _estimate_tokens_content content)
    (fun _ =>
       st_size <- stat_size fs file_path ;;
       Returned (st_size / 4)%Z).

(** ** Vocabulary of the statements *)

(** The content shows three different markers of the fixed set. *)
Definition has_three_markers (content : str) : Prop :=
  exists a b c,
    a <> b /\ a <> c /\ b <> c
    /\ In a code_indicators /\ In b code_indicators /\ In c code_indicators
    /\ contains a content = true
    /\ contains b content = true
    /\ contains c content = true.

(** A float, seen through [Prim2SF], that is [+0] or positive and
    finite with [digits + exponent <= K]: its value is below [2^K]. *)
Definition small (K : Z) (x : spec_float) : Prop :=
  match x with
  | S754_zero false => True
  | S754_finite false m e => (Zpos (digits2_pos m) + e <= K)%Z
  | _ => False
  end.

(** ** The fallback chunker *)

(** [open(file_path, 'r')] and [f.read()]: the text of the file in the
    encoding of the platform, or the exception of [open] or of the
    decoder. *)
Definition text_reader := str -> outcome str.

(** The loop [for i in range(...): chunks.append({'content': ...,
    'id': len(chunks)})]. *)
Fixpoint append_chunks (content : str) (chunk_size : Z) (starts : list Z)
  (chunks : list dict) : list dict :=
  match starts with
  | [] => chunks
  | i :: starts' =>
      let chunk := slice content i (i + chunk_size) in
      append_chunks content chunk_size starts'
        (chunks ++ [[(lit "content", PStr chunk);
                     (lit "id", PInt (Z.of_nat (length chunks)))]])
  end.

Definition fallback_chunk : dict :=
  [(lit "content", PStr (lit "fallback")); (lit "id", PInt 0)].

Definition _create_fallback_chunks (read : text_reader) (file_path : str)
  : outcome (list dict) :=
  try_except
    (content <- read file_path ;;
     let chunk_size := 50000%Z in
     starts <- range 0 (Z.of_nat (length content)) chunk_size ;;
     Returned (append_chunks content chunk_size starts []))
    (fun _ => Returned [fallback_chunk]).

(** The chunks made of the given texts, numbered from [first]. *)
Fixpoint numbered_chunks (first : nat) (texts : list str) : list dict :=
  match texts with
  | [] => []
  | text :: texts' =>
      [(lit "content", PStr text); (lit "id", PInt (Z.of_nat first))]
      :: numbered_chunks (S first) texts'
  end.

(** The consecutive windows of [size] elements of a list, the last one
    possibly shorter. *)
Definition windows {A} (size : nat) (l : list A) : list (list A) :=
  map (fun k => firstn size (skipn (k * size) l))
      (seq 0 ((length l + size - 1) / size)).

(** The integer a chunk carries under ['id']. *)
Definition chunk_number (chunk : dict) : option Z :=
  match dict_get chunk (lit "id") with
  | Some (PInt i) => Some i
  | _ => None
  end.

End TokenEfficiencyAnalyzer.

(* ================================================================== *)
(** * RLMBenchmark: the parallel strategy of the benchmark runner *)
(* ================================================================== *)

(** [benchmarks/run_benchmarks.py], the caller of the manager. *)
Module RLMBenchmark.

Import AgentManager.

(** The loop of [_process_with_parallel], which stops once
    [max_concurrent] chunks exist. *)
Fixpoint chunk_until (content : str) (chunk_size max_concurrent : Z)
  (starts : list Z) (chunks : list dict) : list dict :=
  match starts with
  | [] => chunks
  | i :: starts' =>
      let chunk := slice content i (i + chunk_size) in
      let chunks' :=
        chunks ++ [[(lit "id", PInt (Z.of_nat (length chunks)));
                    (lit "content", PStr chunk)]] in
      if (max_concurrent <=? Z.of_nat (length chunks'))%Z
      then chunks'
      else chunk_until content chunk_size max_concurrent starts' chunks'
  end.

Definition fallback_chunk : dict :=
  [(lit "id", PInt 0); (lit "content", PStr (lit "fallback"))].

(** The chunks made of the given texts, numbered from [first]. *)
Fixpoint numbered_chunks (first : nat) (texts : list str) : list dict :=
  match texts with
  | [] => []
  | text :: texts' =>
      [(lit "id", PInt (Z.of_nat first)); (lit "content", PStr text)]
      :: numbered_chunks (S first) texts'
  end.

(** The [try] block that cuts the file into chunks:
    [chunk_size = len(content) // max_concurrent]. *)
Definition parallel_chunks
  (read : TokenEfficiencyAnalyzer.text_reader) (file_path : str)
  (max_concurrent : Z) : outcome (list dict) :=
  try_except
    (content <- read file_path ;;
     let chunk_size := (Z.of_nat (length content) / max_concurrent)%Z in
     starts <- range 0 (Z.of_nat (length content)) chunk_size ;;
     Returned (chunk_until content chunk_size max_concurrent starts []))
    (fun _ => Returned [fallback_chunk]).

(** The mapping [_process_with_parallel] returns. *)
Record parallel_reply := {
  type : str;
  chunks_processed : nat;
  result : AggregatedReply;
  strategy : str
}.

(** [max_concurrent] is the integer that
    [metadata.get('max_concurrent', 4)] yields; the calls of
    [update_memory], which only record the memory in use, are left out. *)
Definition _process_with_parallel {B : Builtins}
  (read : TokenEfficiencyAnalyzer.text_reader) (sched : schedule)
  (file_path : str) (max_concurrent : Z) : outcome parallel_reply :=
  manager <- __init__ max_concurrent None ;;
  chunks <- parallel_chunks read file_path max_concurrent ;;
  results <- process_chunks_sync manager sched chunks
               (lit "Analyze content") ;;
  let aggregated := aggregate_results results in
  Returned {| type := lit "rlm_parallel";
              chunks_processed := length chunks;
              result := aggregated;
              strategy := lit "parallel" |}.

End RLMBenchmark.

(* ================================================================== *)
(** * Inputs of the worked examples *)
(* ================================================================== *)

Module Examples.

Import AgentManager.

Definition hello_chunk : dict := [(lit "content", PStr (lit "hello world"))].
Definition second_chunk : dict := [(lit "content", PStr (lit "second"))].
Definition third_chunk : dict := [(lit "id", PInt 2)].

(** A worker that answers with the model tag it was given, and raises
    for the chunk with id 1. *)
Definition picky_worker : worker :=
  fun prompt model =>
    if contains (lit "Chunk 1:") prompt
    then Raised (Exc (lit "boom"))
    else Returned (PStr model).

Definition steady_clock : Z -> float * float :=
  fun _ => (10%float, 10.25%float).

Definition slow_clock : Z -> float * float :=
  fun _ => (10%float, 12%float).

(** The second future completes first, then the third, then the first. *)
Definition shuffled : schedule :=
  {| order := [1; 2; 0]; clock := steady_clock |}.

Definition in_order : schedule :=
  {| order := [0; 1; 2]; clock := slow_clock |}.

Definition fresh (llm_query_fn : option worker) : t :=
  {| max_concurrent := 2;
     llm_query_fn := llm_query_fn;
     executor_shutdown := false |}.

Definition three_chunks : list dict :=
  [hello_chunk; second_chunk; third_chunk].

(** What the picky worker leaves for the three chunks. *)
Definition three_results : list Result.t :=
  [ {| Result.chunk_id := 0;
       Result.content := PStr (lit "haiku");
       Result.processing_time_ms := 250%float;
       Result.model_used := lit "haiku";
       Result.error := None |};
    {| Result.chunk_id := 1;
       Result.content := PNone;
       Result.processing_time_ms := 250%float;
       Result.model_used := lit "haiku";
       Result.error := Some (lit "boom") |};
    {| Result.chunk_id := 2;
       Result.content := PStr (lit "haiku");
       Result.processing_time_ms := 250%float;
       Result.model_used := lit "haiku";
       Result.error := None |} ].

(** The first bytes of a JPEG file: four of the twelve are not UTF-8. *)
Definition jpeg_header : list byte :=
  [xff; xd8; xff; xe0; x00; x10; x4a; x46; x49; x46; x00; x01].

Definition photo_fs : TokenEfficiencyAnalyzer.filesystem :=
  fun file_path =>
    if str_eqb file_path (lit "photo.jpg") then Some (TokenEfficiencyAnalyzer.Regular jpeg_header)
    else if str_eqb file_path (lit "locked.txt")
         then Some (TokenEfficiencyAnalyzer.Unreadable 4099)
         else None.

Definition snippet : str := lit "def f(x) { return x == 1 }".

(** A worker like the picky one for the model tag ["haiku"], and mute
    for every other tag. *)
Definition haiku_only_worker : worker :=
  fun prompt model =>
    if str_eqb model (lit "haiku") then picky_worker prompt model
    else Returned PNone.

(** A second manager: other bound, other worker, cleaned up. *)
Definition other_manager : t :=
  cleanup {| max_concurrent := 5;
             llm_query_fn := Some haiku_only_worker;
             executor_shutdown := false |}.

(** Replies that are dicts, the second Result having failed. *)
Definition dict_results : list Result.t :=
  [ {| Result.chunk_id := 0;
       Result.content := PDict [(lit "a", PInt 1); (lit "b", PInt 2)];
       Result.processing_time_ms := 1%float;
       Result.model_used := lit "haiku";
       Result.error := None |};
    {| Result.chunk_id := 1;
       Result.content := PNone;
       Result.processing_time_ms := 1%float;
       Result.model_used := lit "haiku";
       Result.error := Some (lit "boom") |};
    {| Result.chunk_id := 2;
       Result.content := PDict [(lit "b", PInt 3)];
       Result.processing_time_ms := 1%float;
       Result.model_used := lit "haiku";
       Result.error := None |} ].

(** Two payloads of 10 001 characters that differ in the last one. *)
Definition long_chunk (last : N) : dict :=
  [(lit "content", PStr (repeat 97%N (Z.to_nat 10000) ++ [last]))].

Definition single : schedule := {| order := [0]; clock := steady_clock |}.

(** Readers of a text of ten characters, of a text of two, and of a
    file that cannot be opened. *)
Definition ten_reader : TokenEfficiencyAnalyzer.text_reader :=
  fun _ => Returned (lit "abcdefghij").

Definition two_reader : TokenEfficiencyAnalyzer.text_reader :=
  fun _ => Returned (lit "ab").

Definition blank : str := lit "  " ++ nl ++ [9%N; 160%N].

(** A manager after [cleanup()]. *)
Definition cleaned_up : t := cleanup (fresh None).

(** The picky worker as a callable, and a callable that calls
    [sys.exit()] for the chunk with id 1. *)
Definition picky_callable : AnyWorker.worker :=
  fun prompt model => Ends (picky_worker prompt model).

Definition exiting_callable : AnyWorker.worker :=
  fun prompt model =>
    if contains (lit "Chunk 1:") prompt
    then Escapes
    else Ends (Returned (PStr model)).

Definition fresh_with (llm_query_fn : option AnyWorker.worker)
  : AnyWorker.t :=
  {| AnyWorker.max_concurrent := 2;
     AnyWorker.llm_query_fn := llm_query_fn;
     AnyWorker.executor_shutdown := false |}.

Definition refused : Result.t :=
  dispatcher_failure (Exc (lit "cannot schedule new futures after shutdown")).

End Examples.

(* ================================================================== *)
(** * Lists, slices and ranges *)
(* ================================================================== *)

Section ListFacts.

Context {A B : Type}.

Lemma as_completed_all (l : list A) :
  AgentManager.as_completed (seq 0 (length l)) l = l.
Proof.
  unfold AgentManager.as_completed.
  induction l as [|x l IH]; [reflexivity|].
  cbn [length seq flat_map nth_error app].
  f_equal.
  rewrite <- seq_shift, flat_map_concat_map, map_map,
    <- flat_map_concat_map.
  exact IH.
Qed.

Lemma as_completed_permutation (order : list nat) (l : list A) :
  Permutation order (seq 0 (length l)) ->
  Permutation (AgentManager.as_completed order l) l.
Proof.
  intros Hperm.
  rewrite <- (as_completed_all l) at 2.
  unfold AgentManager.as_completed.
  now apply Permutation_flat_map.
Qed.

Lemma slice_prefix (l : list A) (n : Z) :
  (0 <= n)%Z -> slice l 0 n = firstn (Z.to_nat n) l.
Proof.
  intros Hn. unfold slice, clamp_index.
  replace (0 <? 0)%Z with false by reflexivity.
  destruct (n <? 0)%Z eqn:E; [apply Z.ltb_lt in E; lia|].
  rewrite (Z.min_l 0) by lia. cbn [Z.to_nat skipn].
  rewrite Z.sub_0_r.
  destruct (Z.min_spec n (Z.of_nat (length l))) as [[_ ->]|[Hle ->]];
    [reflexivity|].
  rewrite Nat2Z.id, firstn_all.
  symmetry. apply firstn_all2. lia.
Qed.

Lemma slice_window (l : list A) (i size : nat) :
  slice l (Z.of_nat i) (Z.of_nat i + Z.of_nat size)
  = firstn size (skipn i l).
Proof.
  unfold slice, clamp_index.
  destruct (Z.of_nat i <? 0)%Z eqn:E1; [apply Z.ltb_lt in E1; lia|].
  destruct (Z.of_nat i + Z.of_nat size <? 0)%Z eqn:E2;
    [apply Z.ltb_lt in E2; lia|].
  destruct (Nat.le_gt_cases (length l) i) as [Hout|Hin].
  - rewrite !Z.min_r by lia.
    rewrite Nat2Z.id, Z.sub_diag, !skipn_all2 by lia.
    now rewrite !firstn_nil.
  - rewrite (Z.min_l (Z.of_nat i)) by lia. rewrite Nat2Z.id.
    destruct (Z.min_spec (Z.of_nat i + Z.of_nat size) (Z.of_nat (length l)))
      as [[_ ->]|[Hle ->]].
    + f_equal. lia.
    + assert (Hlen : length (skipn i l) = length l - i)
        by apply length_skipn.
      rewrite !firstn_all2; [reflexivity| |]; lia.
Qed.

(** Cutting a list into windows of [size] elements and gluing the
    windows gives the list back. *)
Lemma windows_concat (size : nat) :
  0 < size ->
  forall (count : nat) (l : list A),
    length l <= count * size ->
    concat (map (fun k => firstn size (skipn (k * size) l)) (seq 0 count))
    = l.
Proof.
  intros Hsize count.
  induction count as [|count IH]; intros l Hlen.
  - destruct l; [reflexivity|simpl in Hlen; lia].
  - cbn [seq map concat]. rewrite <- seq_shift, map_map.
    change (0 * size) with 0. cbn [skipn].
    transitivity (firstn size l ++ skipn size l);
      [|apply firstn_skipn]. f_equal.
    etransitivity; [|apply (IH (skipn size l))].
    + f_equal. apply map_ext. intros k.
      rewrite skipn_skipn. do 2 f_equal. lia.
    + rewrite length_skipn. simpl in Hlen. lia.
Qed.

End ListFacts.

(* ================================================================== *)
(** * The sort by chunk_id *)
(* ================================================================== *)

Section Sorting.

Import AgentManager.

Lemma insert_by_chunk_id_permutation r l :
  Permutation (insert_by_chunk_id r l) (r :: l).
Proof.
  induction l as [|x l IH]; simpl; [reflexivity|].
  destruct (Result.chunk_id x <=? Result.chunk_id r)%Z.
  - rewrite IH. apply perm_swap.
  - reflexivity.
Qed.

Lemma insert_by_chunk_id_ascending r l :
  ascending l -> ascending (insert_by_chunk_id r l).
Proof.
  unfold ascending.
  induction l as [|x l IH]; intros Hl; simpl.
  - repeat constructor.
  - inversion Hl as [|? ? Hl' Hx]; subst.
    destruct (Result.chunk_id x <=? Result.chunk_id r)%Z eqn:E.
    + constructor; [now apply IH|].
      apply Z.leb_le in E.
      rewrite (Forall_forall (chunk_id_le x)).
      intros y Hy.
      apply (Permutation_in _ (insert_by_chunk_id_permutation r l)) in Hy.
      destruct Hy as [<-|Hy]; [exact E|].
      now apply (proj1 (Forall_forall _ _) Hx).
    + apply Z.leb_gt in E.
      constructor; [exact Hl|].
      constructor; [unfold chunk_id_le; lia|].
      eapply Forall_impl; [|exact Hx].
      unfold chunk_id_le. intros; lia.
Qed.

Lemma sort_fold_spec l :
  forall acc,
    ascending acc ->
    let sorted := fold_left (fun sorted r => insert_by_chunk_id r sorted) l acc in
    ascending sorted /\ Permutation sorted (l ++ acc).
Proof.
  induction l as [|r l IH]; intros acc Hacc; simpl.
  - split; [exact Hacc|reflexivity].
  - destruct (IH (insert_by_chunk_id r acc)) as [Hs Hp];
      [now apply insert_by_chunk_id_ascending|].
    split; [exact Hs|].
    rewrite Hp, insert_by_chunk_id_permutation.
    symmetry. apply Permutation_middle.
Qed.

Lemma sort_by_chunk_id_ascending l : ascending (sort_by_chunk_id l).
Proof. apply (sort_fold_spec l []). constructor. Qed.

Lemma sort_by_chunk_id_permutation l : Permutation (sort_by_chunk_id l) l.
Proof.
  destruct (sort_fold_spec l []) as [_ Hp]; [constructor|].
  now rewrite app_nil_r in Hp.
Qed.

(** Two orderings of the same Results agree when one is ascending and
    the other strictly ascending: with distinct keys the sort has one
    possible outcome. *)
Lemma ascending_unique l1 :
  forall l2,
    ascending l1 ->
    StronglySorted chunk_id_lt l2 ->
    Permutation l1 l2 ->
    l1 = l2.
Proof.
  induction l1 as [|x l1 IH]; intros l2 H1 H2 Hp.
  - now apply Permutation_nil in Hp.
  - destruct l2 as [|y l2];
      [symmetry in Hp; now apply Permutation_nil in Hp|].
    inversion H1 as [|? ? H1' Hx]; subst.
    inversion H2 as [|? ? H2' Hy]; subst.
    assert (Hxy : x = y).
    { assert (Hin : In x (y :: l2))
        by (apply (Permutation_in _ Hp); now left).
      destruct Hin as [->|Hin]; [reflexivity|].
      pose proof (proj1 (Forall_forall _ _) Hy x Hin) as Hlt.
      assert (Hin' : In y (x :: l1))
        by (apply (Permutation_in _ (Permutation_sym Hp)); now left).
      destruct Hin' as [->|Hin']; [reflexivity|].
      pose proof (proj1 (Forall_forall _ _) Hx y Hin') as Hle.
      unfold chunk_id_le, chunk_id_lt in *. lia. }
    subst y. f_equal.
    apply IH; [exact H1'|exact H2'|].
    now apply Permutation_cons_inv in Hp.
Qed.

Lemma strictly_ascending_map_of_nat {A} (f : A -> Result.t) (l : list A) :
  forall i,
    map (fun a => Result.chunk_id (f a)) l = map Z.of_nat (seq i (length l)) ->
    StronglySorted chunk_id_lt (map f l).
Proof.
  induction l as [|a l IH]; intros i Hids; simpl.
  - constructor.
  - simpl in Hids. injection Hids as Ha Hl.
    constructor; [now apply (IH (S i))|].
    rewrite Forall_map, Forall_forall. intros b Hb.
    unfold chunk_id_lt. rewrite Ha.
    assert (Hin : In (Result.chunk_id (f b))
                    (map Z.of_nat (seq (S i) (length l)))).
    { rewrite <- Hl. apply (in_map (fun a => Result.chunk_id (f a)) _ _ Hb). }
    apply in_map_iff in Hin. destruct Hin as [k [<- Hk]].
    apply in_seq in Hk. lia.
Qed.

End Sorting.

(* ================================================================== *)
(** * What the two dispatch methods return *)
(* ================================================================== *)

Section Dispatch.

Import AgentManager.
Context {B : Builtins}.

Lemma constructed_max_concurrent self :
  constructed self -> (0 < max_concurrent self)%Z.
Proof.
  induction 1 as [mc llm self Hinit|self _ IH]; [|exact IH].
  unfold __init__, ThreadPoolExecutor in Hinit.
  destruct (mc <=? 0)%Z eqn:E; [discriminate|].
  apply Z.leb_gt in E. simpl in Hinit.
  injection Hinit as <-. exact E.
Qed.

Lemma build_tasks_from_length chunks query :
  forall i, length (build_tasks_from i chunks query) = length chunks.
Proof.
  induction chunks as [|c chunks IH]; intros i; simpl; [|rewrite IH];
    reflexivity.
Qed.

Lemma build_tasks_from_ids chunks query :
  forall i,
    map ChunkTask.id (build_tasks_from i chunks query)
    = map Z.of_nat (seq i (length chunks)).
Proof.
  induction chunks as [|c chunks IH]; intros i; simpl; [|rewrite IH];
    reflexivity.
Qed.

(** The three ways [_process_single_chunk] ends; none of them raises. *)
Lemma process_single_chunk_cases self readings task :
  _process_single_chunk self readings task
  = Returned
      match llm_query_fn self with
      | None =>
          {| Result.chunk_id := ChunkTask.id task;
             Result.content := PStr (placeholder task);
             Result.processing_time_ms := elapsed_ms readings;
             Result.model_used := _select_model task;
             Result.error := None |}
      | Some llm =>
          match llm (_build_prompt task) (_select_model task) with
          | Returned reply =>
              {| Result.chunk_id := ChunkTask.id task;
                 Result.content := reply;
                 Result.processing_time_ms := elapsed_ms readings;
                 Result.model_used := _select_model task;
                 Result.error := None |}
          | Raised e =>
              {| Result.chunk_id := ChunkTask.id task;
                 Result.content := PNone;
                 Result.processing_time_ms := elapsed_ms readings;
                 Result.model_used := Result.default_model_used;
                 Result.error := Some (str_of_exc e) |}
          end
      end.
Proof.
  unfold _process_single_chunk.
  destruct (llm_query_fn self) as [llm|]; [|reflexivity].
  destruct (llm _ _); reflexivity.
Qed.


Lemma process_single_chunk_id self readings task :
  Result.chunk_id (settled (_process_single_chunk self readings task))
  = ChunkTask.id task.
Proof.
  rewrite process_single_chunk_cases. simpl.
  destruct (llm_query_fn self) as [llm|]; [|reflexivity].
  destruct (llm _ _); reflexivity.
Qed.

(** The list that [process_chunks_sync] sorts: one Result per future,
    in completion order. *)
Lemma collected_in_completion_order (futures : list (outcome Result.t)) :
  forall acc,
    fold_left
      (fun results future =>
         match future with
         | Returned result => results ++ [result]
         | Raised e => results ++ [dispatcher_failure e]
         end)
      futures acc
    = acc ++ map settled futures.
Proof.
  induction futures as [|f futures IH]; intros acc; simpl.
  - now rewrite app_nil_r.
  - destruct f; rewrite IH, <- app_assoc; reflexivity.
Qed.

Lemma sync_results_permutation self sched chunks query results :
  completes_each_once sched (length chunks) ->
  process_chunks_sync self sched chunks query = Returned results ->
  Permutation results (map (sync_result self sched) (build_tasks chunks query)).
Proof.
  intros Hsched Hrun.
  unfold process_chunks_sync in Hrun.
  destruct (ThreadPoolExecutor (max_concurrent self)); [|discriminate].
  simpl in Hrun. injection Hrun as <-.
  rewrite sort_by_chunk_id_permutation, collected_in_completion_order.
  simpl.
  change (map (sync_result self sched) (build_tasks chunks query))
    with (map (fun task =>
                 settled (_process_single_chunk self
                            (clock sched (ChunkTask.id task)) task))
            (build_tasks chunks query)).
  rewrite <- (map_map
                (fun task =>
                   _process_single_chunk self
                     (clock sched (ChunkTask.id task)) task)
                settled).
  apply Permutation_map, as_completed_permutation.
  unfold completes_each_once in Hsched.
  unfold build_tasks.
  now rewrite length_map, build_tasks_from_length.
Qed.

(** Whatever the completion order, [process_chunks_sync] returns the
    Results of the tasks in the order of the tasks. *)
Lemma sync_in_task_order self sched chunks query :
  constructed self ->
  completes_each_once sched (length chunks) ->
  process_chunks_sync self sched chunks query
  = Returned (map (sync_result self sched) (build_tasks chunks query)).
Proof.
  intros Hself Hsched.
  assert (Hrun : exists results,
             process_chunks_sync self sched chunks query = Returned results).
  { unfold process_chunks_sync, ThreadPoolExecutor.
    apply constructed_max_concurrent in Hself.
    destruct (max_concurrent self <=? 0)%Z eqn:E;
      [apply Z.leb_le in E; lia|].
    simpl. eauto. }
  destruct Hrun as [results Hrun]. rewrite Hrun. f_equal.
  apply ascending_unique.
  - unfold process_chunks_sync in Hrun.
    destruct (ThreadPoolExecutor (max_concurrent self)); [|discriminate].
    simpl in Hrun. injection Hrun as <-.
    apply sort_by_chunk_id_ascending.
  - apply (strictly_ascending_map_of_nat _ _ 0).
    unfold build_tasks.
    rewrite build_tasks_from_length, <- build_tasks_from_ids with (query := query).
    apply map_ext. intros task. apply process_single_chunk_id.
  - now apply sync_results_permutation.
Qed.

Lemma range_windows (n : nat) (step : Z) :
  (0 < step)%Z ->
  exists count,
    n <= count * Z.to_nat step /\
    range 0 (Z.of_nat n) step
    = Returned (map (fun k => Z.of_nat (k * Z.to_nat step)) (seq 0 count)).
Proof.
  intros Hstep. unfold range.
  destruct (step =? 0)%Z eqn:E0; [apply Z.eqb_eq in E0; lia|].
  destruct (0 <? step)%Z eqn:E1; [|apply Z.ltb_ge in E1; lia].
  set (count := ((Z.of_nat n - 0 + step - 1) / step)%Z).
  exists (Z.to_nat count). split.
  - assert (Hc : (Z.of_nat n <= count * step)%Z).
    { unfold count.
      pose proof (Z.mul_div_le (Z.of_nat n - 0 + step - 1) step Hstep).
      pose proof (Z.mod_pos_bound (Z.of_nat n - 0 + step - 1) step Hstep).
      pose proof (Z.div_mod (Z.of_nat n - 0 + step - 1) step).
      nia. }
    assert (0 <= count)%Z by (unfold count; apply Z.div_pos; lia).
    nia.
  - f_equal. apply map_ext. intros k. lia.
Qed.

Lemma batch_tasks_concat tasks batch_size :
  (0 < batch_size)%Z ->
  exists batches,
    _batch_tasks tasks batch_size = Returned batches /\
    concat batches = tasks.
Proof.
  intros Hsize. unfold _batch_tasks.
  destruct (range_windows (length tasks) batch_size Hsize)
    as [count [Hcount ->]].
  simpl. eexists. split; [reflexivity|].
  rewrite map_map.
  etransitivity;
    [|apply (windows_concat (Z.to_nat batch_size) ltac:(lia) count tasks Hcount)].
  f_equal. apply map_ext. intros k.
  rewrite <- (slice_window tasks (k * Z.to_nat batch_size) (Z.to_nat batch_size)).
  f_equal. lia.
Qed.

Lemma gathered_batch self clock (batch : list ChunkTask.t) :
  forall acc,
    fold_left
      (fun tasks result =>
         match result with
         | Raised e => tasks ++ [dispatcher_failure e]
         | Returned r => tasks ++ [r]
         end)
      (map (_process_chunk_async self clock) batch) acc
    = acc ++ map (async_result self clock) batch.
Proof.
  induction batch as [|task batch IH]; intros acc; simpl.
  - now rewrite app_nil_r.
  - rewrite IH.
    change (async_result self clock task)
      with (settled (_process_chunk_async self clock task)).
    destruct (_process_chunk_async self clock task); simpl;
      rewrite <- app_assoc; reflexivity.
Qed.

Lemma gathered_in_task_order self clock (batches : list (list ChunkTask.t)) :
  forall acc,
    fold_left
      (fun tasks batch =>
         let batch_results := map (_process_chunk_async self clock) batch in
         fold_left
           (fun tasks result =>
              match result with
              | Raised e => tasks ++ [dispatcher_failure e]
              | Returned r => tasks ++ [r]
              end)
           batch_results tasks)
      batches acc
    = acc ++ map (async_result self clock) (concat batches).
Proof.
  induction batches as [|batch batches IH]; intros acc; simpl.
  - now rewrite app_nil_r.
  - now rewrite gathered_batch, IH, map_app, app_assoc.
Qed.

Lemma async_in_task_order self clock chunks query :
  constructed self ->
  process_chunks_async self clock chunks query
  = Returned (map (async_result self clock) (build_tasks chunks query)).
Proof.
  intros Hself. unfold process_chunks_async.
  destruct (batch_tasks_concat (build_tasks chunks query) (max_concurrent self))
    as [batches [-> Hconcat]];
    [now apply constructed_max_concurrent|].
  simpl. now rewrite gathered_in_task_order, Hconcat.
Qed.

End Dispatch.

(* ================================================================== *)
(** * Callables that raise nothing but [Exception] *)
(* ================================================================== *)

Section CheckedCallables.

Import AgentManager.
Context {B : Builtins}.

Lemma map_constant {X Y} (f : X -> Y) (y : Y) (l : list X) :
  (forall x, f x = y) -> map f l = repeat y (length l).
Proof.
  intros Hf. induction l as [|x l IH]; simpl; [reflexivity|].
  now rewrite Hf, IH.
Qed.

Lemma as_completed_map {X Y} (f : X -> Y) (order : list nat) (l : list X) :
  as_completed order (map f l) = map f (as_completed order l).
Proof.
  unfold as_completed.
  induction order as [|i order IH]; [reflexivity|].
  cbn [flat_map]. rewrite map_app, IH, nth_error_map.
  now destruct (nth_error l i).
Qed.

Lemma any_single_chunk_agrees self checked readings task :
  AnyWorker.agrees self checked ->
  AnyWorker._process_single_chunk self readings task
  = Ends (_process_single_chunk checked readings task).
Proof.
  intros [_ [_ Hllm]].
  unfold AnyWorker._process_single_chunk, _process_single_chunk.
  destruct (AnyWorker.llm_query_fn self) as [llm|],
    (llm_query_fn checked) as [checked_llm|];
    try contradiction; [|reflexivity].
  cbn zeta. rewrite Hllm.
  now destruct (checked_llm _ _).
Qed.

Lemma any_chunk_async_agrees self checked clock task :
  AnyWorker.agrees self checked ->
  AnyWorker._process_chunk_async self clock task
  = Ends (_process_chunk_async checked clock task).
Proof.
  intros Hagrees.
  unfold AnyWorker._process_chunk_async, _process_chunk_async.
  destruct (proj1 (proj2 Hagrees)).
  destruct (AnyWorker.executor_shutdown self); [reflexivity|].
  now apply any_single_chunk_agrees.
Qed.

(** The loop over [as_completed] when no future holds an exception
    outside [Exception]. *)
Lemma any_collected (futures : list (outcome Result.t)) :
  forall acc,
    fold_left
      (fun collected future =>
         results <~ collected ;;
         except_Exception
           (result <~ future ;;
            Ends (Returned (results ++ [result])))
           (fun e => Ends (Returned (results ++ [dispatcher_failure e]))))
      (map Ends futures) (Ends (Returned acc))
    = Ends (Returned (acc ++ map settled futures)).
Proof.
  induction futures as [|future futures IH]; intros acc; cbn [map fold_left].
  - now rewrite app_nil_r.
  - destruct future; cbn [ending_bind except_Exception];
      rewrite IH, <- app_assoc; reflexivity.
Qed.

Lemma any_sync_agrees self checked sched chunks query :
  AnyWorker.agrees self checked ->
  AnyWorker.process_chunks_sync self sched chunks query
  = Ends (process_chunks_sync checked sched chunks query).
Proof.
  intros Hagrees.
  unfold AnyWorker.process_chunks_sync, process_chunks_sync.
  destruct Hagrees as [Hmc Hrest]. rewrite Hmc.
  destruct (ThreadPoolExecutor (max_concurrent checked)) as [[]|e];
    [|reflexivity].
  cbn [ending_bind bind].
  rewrite (map_ext_in
             (fun task =>
                AnyWorker._process_single_chunk self
                  (clock sched (ChunkTask.id task)) task)
             (fun task =>
                Ends (_process_single_chunk checked
                        (clock sched (ChunkTask.id task)) task)))
    by (intros task _; apply any_single_chunk_agrees; now split).
  rewrite <- (map_map
                (fun task =>
                   _process_single_chunk checked
                     (clock sched (ChunkTask.id task)) task)
                Ends).
  rewrite as_completed_map, any_collected, collected_in_completion_order.
  reflexivity.
Qed.

Lemma any_gather {X} (awaited : list (outcome X)) :
  AnyWorker.gather (map Ends awaited) = Ends (Returned awaited).
Proof.
  induction awaited as [|o awaited IH]; [reflexivity|].
  cbn [map AnyWorker.gather]. now rewrite IH.
Qed.

Lemma any_gathered self checked clock (batches : list (list ChunkTask.t)) :
  AnyWorker.agrees self checked ->
  forall acc,
    fold_left
      (fun gathered batch =>
         tasks <~ gathered ;;
         batch_results <~
           AnyWorker.gather
             (map (AnyWorker._process_chunk_async self clock) batch) ;;
         Ends (Returned
                 (fold_left
                    (fun tasks result =>
                       match result with
                       | Raised e => tasks ++ [dispatcher_failure e]
                       | Returned r => tasks ++ [r]
                       end)
                    batch_results tasks)))
      batches (Ends (Returned acc))
    = Ends (Returned (acc ++ map (async_result checked clock)
                               (concat batches))).
Proof.
  intros Hagrees.
  induction batches as [|batch batches IH]; intros acc;
    cbn [fold_left concat map].
  - now rewrite app_nil_r.
  - cbn [ending_bind].
    rewrite (map_ext
               (AnyWorker._process_chunk_async self clock)
               (fun task => Ends (_process_chunk_async checked clock task)))
      by (intros task; now apply any_chunk_async_agrees).
    rewrite <- (map_map (_process_chunk_async checked clock) Ends).
    rewrite any_gather. cbn [ending_bind].
    now rewrite gathered_batch, IH, map_app, app_assoc.
Qed.

Lemma any_async_agrees self checked clock chunks query :
  constructed checked ->
  AnyWorker.agrees self checked ->
  AnyWorker.process_chunks_async self clock chunks query
  = Ends (process_chunks_async checked clock chunks query).
Proof.
  intros Hchecked Hagrees.
  rewrite (async_in_task_order checked clock chunks query Hchecked).
  unfold AnyWorker.process_chunks_async.
  destruct Hagrees as [Hmc Hrest]. rewrite Hmc.
  destruct (batch_tasks_concat (build_tasks chunks query)
              (max_concurrent checked))
    as [batches [-> Hconcat]];
    [now apply constructed_max_concurrent|].
  cbn [ending_bind].
  rewrite (any_gathered self checked clock batches) by now split.
  now rewrite Hconcat.
Qed.

(** A manager whose callable raises nothing but [Exception] is one of
    the managers of [AgentManager]. *)
Lemma constructed_agrees self :
  AnyWorker.constructed self ->
  AnyWorker.raises_only_exceptions self ->
  exists checked, constructed checked /\ AnyWorker.agrees self checked.
Proof.
  induction 1 as [mc llm self Hinit|self _ IH]; intros Honly.
  - unfold AnyWorker.__init__ in Hinit.
    destruct (ThreadPoolExecutor mc) as [[]|e] eqn:Hpool; [|discriminate].
    cbn [bind] in Hinit. injection Hinit as <-.
    exists {| max_concurrent := mc;
              llm_query_fn :=
                option_map
                  (fun (f : AnyWorker.worker) prompt model =>
                     match f prompt model with
                     | Ends o => o
                     | Escapes => Raised (Exc [])
                     end)
                  llm;
              executor_shutdown := false |}.
    split.
    + apply (constructed_init mc
               (option_map
                  (fun (f : AnyWorker.worker) prompt model =>
                     match f prompt model with
                     | Ends o => o
                     | Escapes => Raised (Exc [])
                     end)
                  llm)).
      unfold __init__. now rewrite Hpool.
    + split; [reflexivity|]. split; [reflexivity|].
      cbn [AnyWorker.llm_query_fn llm_query_fn].
      destruct llm as [f|]; cbn [option_map]; [|exact I].
      intros prompt model.
      destruct (f prompt model) eqn:Hcall; [reflexivity|].
      exfalso. exact (Honly f prompt model eq_refl Hcall).
  - destruct IH as [checked [Hchecked [Hmc [Hdown Hllm]]]].
    { intros llm prompt model Hsome. exact (Honly llm prompt model Hsome). }
    exists (cleanup checked). split; [now apply constructed_cleanup|].
    split; [exact Hmc|]. split; [reflexivity|exact Hllm].
Qed.

End CheckedCallables.

(* ================================================================== *)
(** * Properties of dispatch *)
(* ================================================================== *)

Section DispatchProperties.

Import AgentManager.
Context {B : Builtins}.



Lemma async_result_cases self clock task :
  async_result self clock task
  = if executor_shutdown self
    then dispatcher_failure
           (Exc (lit "cannot schedule new futures after shutdown"))
    else settled (_process_single_chunk self (clock (ChunkTask.id task)) task).
Proof.
  unfold async_result, _process_chunk_async.
  now destruct (executor_shutdown self).
Qed.

Lemma build_tasks_length chunks query :
  length (build_tasks chunks query) = length chunks.
Proof. apply build_tasks_from_length. Qed.



Lemma build_tasks_from_nth chunks query :
  forall start i chunk,
    nth_error chunks i = Some chunk ->
    nth_error (build_tasks_from start chunks query) i
    = Some {| ChunkTask.id := Z.of_nat (start + i);
              ChunkTask.content := chunk_payload chunk;
              ChunkTask.task_type := lit "query";
              ChunkTask.query := Some query;
              ChunkTask.metadata := chunk |}.
Proof.
  induction chunks as [|c chunks IH]; intros start i chunk Hi.
  - now destruct i.
  - destruct i as [|i]; simpl in *.
    + injection Hi as ->. now rewrite Nat.add_0_r.
    + rewrite (IH (S start) i chunk Hi). do 3 f_equal. lia.
Qed.

Lemma single_chunk_error_content self readings task :
  let r := settled (_process_single_chunk self readings task) in
  Result.error r <> None -> Result.content r = PNone.
Proof.
  rewrite process_single_chunk_cases. simpl.
  destruct (llm_query_fn self) as [llm|]; [|now intros []].
  destruct (llm _ _); [now intros []|reflexivity].
Qed.

Lemma async_error_content self clock task :
  Result.error (async_result self clock task) <> None ->
  Result.content (async_result self clock task) = PNone.
Proof.
  rewrite async_result_cases.
  destruct (executor_shutdown self); [reflexivity|].
  apply single_chunk_error_content.
Qed.

(** C2, as the code has it. For every chunk sequence and query, and
    for every worker callable that raises nothing but instances of
    [Exception], neither dispatch method raises: each returns one Result
    per chunk. A task whose worker call raised is represented, at the
    position of the task, by a Result whose [content] is [None] and
    whose [error] holds the text of the exception (after [cleanup()],
    in [process_chunks_async], the text of the refusal of the pool), and
    every Result with an error has the content [None]. The two handlers
    are [except Exception]: an exception outside [Exception] is not
    covered. *)
Theorem dispatch_never_raises (self : AnyWorker.t) sched chunks query :
  AnyWorker.constructed self ->
  completes_each_once sched (length chunks) ->
  AnyWorker.raises_only_exceptions self ->
  exists results results_async,
    AnyWorker.process_chunks_sync self sched chunks query
    = Ends (Returned results)
    /\ AnyWorker.process_chunks_async self (clock sched) chunks query
       = Ends (Returned results_async)
    /\ length results = length chunks
    /\ length results_async = length chunks
    /\ (forall r, In r (results ++ results_async) ->
                  Result.error r <> None -> Result.content r = PNone)
    /\ (forall llm i task e,
           AnyWorker.llm_query_fn self = Some llm ->
           nth_error (build_tasks chunks query) i = Some task ->
           llm (_build_prompt task) (_select_model task) = Ends (Raised e) ->
           (exists r,
               nth_error results i = Some r
               /\ Result.chunk_id r = ChunkTask.id task
               /\ Result.error r = Some (str_of_exc e)
               /\ Result.content r = PNone)
           /\ (exists r,
                  nth_error results_async i = Some r
                  /\ Result.error r
                     = Some (if AnyWorker.executor_shutdown self
                             then lit "cannot schedule new futures after shutdown"
                             else str_of_exc e)
                  /\ Result.content r = PNone)).
Proof.
  intros Hself Hsched Honly.
  destruct (constructed_agrees self Hself Honly)
    as [checked [Hchecked Hagrees]].
  rewrite (any_sync_agrees self checked sched chunks query Hagrees).
  rewrite (any_async_agrees self checked (clock sched) chunks query
             Hchecked Hagrees).
  rewrite (sync_in_task_order checked sched chunks query Hchecked Hsched).
  rewrite (async_in_task_order checked (clock sched) chunks query Hchecked).
  do 2 eexists. split; [reflexivity|]. split; [reflexivity|].
  split; [now rewrite length_map, build_tasks_length|].
  split; [now rewrite length_map, build_tasks_length|].
  split.
  - intros r Hin. apply in_app_or in Hin.
    destruct Hin as [Hin|Hin]; apply in_map_iff in Hin;
      destruct Hin as [task [<- _]].
    + apply single_chunk_error_content.
    + apply async_error_content.
  - intros llm i task e Hllm Hi Hraise.
    destruct Hagrees as [_ [Hdown Hworker]].
    rewrite Hllm in Hworker.
    destruct (llm_query_fn checked) as [checked_llm|] eqn:Hchecked_llm;
      [|contradiction].
    rewrite Hworker in Hraise. injection Hraise as Hraise.
    assert (Hresult :
              settled (_process_single_chunk checked
                         (clock sched (ChunkTask.id task)) task)
              = {| Result.chunk_id := ChunkTask.id task;
                   Result.content := PNone;
                   Result.processing_time_ms :=
                     elapsed_ms (clock sched (ChunkTask.id task));
                   Result.model_used := Result.default_model_used;
                   Result.error := Some (str_of_exc e) |}).
    { rewrite process_single_chunk_cases, Hchecked_llm, Hraise.
      reflexivity. }
    split.
    + exists (sync_result checked sched task).
      split; [now apply map_nth_error|].
      unfold sync_result. rewrite Hresult. now repeat split.
    + exists (async_result checked (clock sched) task).
      split; [now apply map_nth_error|].
      rewrite async_result_cases, Hdown.
      destruct (executor_shutdown checked); [now split|].
      rewrite Hresult. now split.
Qed.


(** C10, as the code has it. A manager constructed without a worker
    returns from [process_chunks_sync], for every chunk sequence and
    query and in every state of the manager, one Result per chunk, in
    the order of the chunks, with no error and with the content
    [[Processed chunk <id>: <n> chars]], where [n] is the length of
    [str()] of the payload of the chunk; the worker is not consulted.
    [process_chunks_async] returns the same Results while the pool of
    the manager is live; after [cleanup()] it returns, for each chunk,
    the Result of the refusal of the pool, which has the [chunk_id] -1,
    the content [None] and an error. *)
Theorem no_worker_placeholders self sched chunks query :
  constructed self ->
  llm_query_fn self = None ->
  completes_each_once sched (length chunks) ->
  let expected :=
    map (fun task =>
           {| Result.chunk_id := ChunkTask.id task;
              Result.content :=
                PStr (lit "[Processed chunk "
                      ++ str_of_int (ChunkTask.id task) ++ lit ": "
                      ++ str_of_int
                           (Z.of_nat
                              (length (py_str (ChunkTask.content task))))
                      ++ lit " chars]");
              Result.processing_time_ms :=
                elapsed_ms (clock sched (ChunkTask.id task));
              Result.model_used := lit "haiku";
              Result.error := None |})
        (build_tasks chunks query) in
  process_chunks_sync self sched chunks query = Returned expected
  /\ process_chunks_async self (clock sched) chunks query
     = Returned
         (if executor_shutdown self
          then repeat
                 {| Result.chunk_id := (-1)%Z;
                    Result.content := PNone;
                    Result.processing_time_ms := 0%float;
                    Result.model_used := lit "haiku";
                    Result.error :=
                      Some (lit "cannot schedule new futures after shutdown") |}
                 (length chunks)
          else expected)
  /\ length expected = length chunks
  /\ (forall i chunk,
         nth_error chunks i = Some chunk ->
         exists task,
           nth_error (build_tasks chunks query) i = Some task
           /\ ChunkTask.id task = Z.of_nat i
           /\ ChunkTask.content task = chunk_payload chunk).
Proof.
  intros Hself Hnone Hsched expected.
  assert (Hresult : forall task,
             In task (build_tasks chunks query) ->
             sync_result self sched task
             = {| Result.chunk_id := ChunkTask.id task;
                  Result.content :=
                    PStr (lit "[Processed chunk "
                          ++ str_of_int (ChunkTask.id task) ++ lit ": "
                          ++ str_of_int
                               (Z.of_nat
                                  (length (py_str (ChunkTask.content task))))
                          ++ lit " chars]");
                  Result.processing_time_ms :=
                    elapsed_ms (clock sched (ChunkTask.id task));
                  Result.model_used := lit "haiku";
                  Result.error := None |}).
  { intros task Hin. unfold sync_result.
    rewrite process_single_chunk_cases, Hnone. simpl.
    f_equal.
    apply in_map with (f := ChunkTask.task_type) in Hin.
    assert (Htype : forall start,
               Forall (fun ty => ty = lit "query")
                 (map ChunkTask.task_type
                    (build_tasks_from start chunks query))).
    { clear. induction chunks as [|c chunks IH]; intros start; simpl;
        constructor; [reflexivity|apply IH]. }
    specialize (Htype 0). rewrite Forall_forall in Htype.
    unfold _select_model. now rewrite (Htype _ Hin). }
  split; [|split; [|split]].
  - rewrite (sync_in_task_order self sched chunks query Hself Hsched).
    f_equal. apply map_ext_in. exact Hresult.
  - rewrite (async_in_task_order self (clock sched) chunks query Hself).
    f_equal. destruct (executor_shutdown self) eqn:Hdown.
    + rewrite <- (build_tasks_length chunks query).
      apply map_constant. intros task.
      now rewrite async_result_cases, Hdown.
    + apply map_ext_in. intros task Hin.
      rewrite async_result_cases, Hdown. now apply Hresult.
  - unfold expected. now rewrite length_map, build_tasks_length.
  - intros i chunk Hi. eexists. split.
    + apply (build_tasks_from_nth chunks query 0 i chunk Hi).
    + split; reflexivity.
Qed.

End DispatchProperties.

Lemma fresh_constructed llm : AgentManager.constructed (Examples.fresh llm).
Proof. now apply (AgentManager.constructed_init 2 llm). Defined.

Lemma shuffled_completes :
  AgentManager.completes_each_once Examples.shuffled 3.
Proof.
  unfold AgentManager.completes_each_once. simpl.
  apply Permutation_sym, (Permutation_cons_app [1; 2] [] 0). reflexivity.
Defined.


(* ================================================================== *)
(** * Properties of aggregate_results *)
(* ================================================================== *)

Section Aggregation.

Import AgentManager.
Context {B : Builtins}.

Lemma successful_count results :
  length (filter (fun r => is_None (Result.error r)) results)
  = count_without_error results.
Proof.
  induction results as [|r results IH]; simpl; [reflexivity|].
  destruct (Result.error r); simpl; now rewrite IH.
Qed.

Lemma failed_count results :
  length (filter (fun r => negb (is_None (Result.error r))) results)
  = count_with_error results.
Proof.
  induction results as [|r results IH]; simpl; [reflexivity|].
  destruct (Result.error r); simpl; now rewrite IH.
Qed.

Lemma failed_entries results :
  map (fun r => (Result.chunk_id r, Result.error r))
    (filter (fun r => negb (is_None (Result.error r))) results)
  = error_entries results.
Proof.
  induction results as [|r results IH]; simpl; [reflexivity|].
  destruct (Result.error r) eqn:E; simpl; now rewrite IH, ?E.
Qed.

Lemma counts_partition results :
  count_without_error results + count_with_error results = length results.
Proof.
  induction results as [|r results IH]; simpl; [reflexivity|].
  destruct (Result.error r); simpl; lia.
Qed.

Lemma error_entries_length results :
  length (error_entries results) = count_with_error results.
Proof.
  induction results as [|r results IH]; simpl; [reflexivity|].
  destruct (Result.error r); simpl; now rewrite IH.
Qed.

Lemma all_failed_counts results :
  Forall (fun r => Result.error r <> None) results ->
  count_without_error results = 0 /\ count_with_error results = length results.
Proof.
  induction 1 as [|r results Hr _ [IH0 IH1]]; simpl; [now split|].
  destruct (Result.error r); [|contradiction]. now rewrite IH1.
Qed.

Lemma all_failed_no_successful results :
  Forall (fun r => Result.error r <> None) results ->
  filter (fun r => is_None (Result.error r)) results = [].
Proof.
  induction 1 as [|r results Hr _ IH]; simpl; [reflexivity|].
  destruct (Result.error r); [exact IH|contradiction].
Qed.

(** C5. For every Result sequence, also one in which every Result
    failed, the reply of [aggregate_results] has [chunks_processed]
    equal to the number of Results without error, [chunks_failed] equal
    to the number with an error, the two adding up to the length of the
    sequence; [total_processing_time_ms] is the sum of
    [processing_time_ms] over all Results; [errors] has one
    [(chunk_id, error)] entry per failed Result, in sequence order.
    When every Result failed the reply counts them all as failed and
    its aggregated content is the empty string. *)
Theorem aggregate_counters results :
  let reply := aggregate_results results in
  chunks_processed reply = count_without_error results
  /\ chunks_failed reply = count_with_error results
  /\ chunks_processed reply + chunks_failed reply = length results
  /\ total_processing_time_ms reply
     = py_sum (map Result.processing_time_ms results)
  /\ errors reply = error_entries results
  /\ length (errors reply) = chunks_failed reply
  /\ (Forall (fun r => Result.error r <> None) results ->
      chunks_processed reply = 0
      /\ chunks_failed reply = length results
      /\ aggregated reply = PStr []).
Proof.
  cbn zeta. unfold aggregate_results.
  cbn [chunks_processed chunks_failed total_processing_time_ms errors
         aggregated].
  rewrite successful_count, failed_count, failed_entries,
    error_entries_length.
  repeat split; try apply counts_partition.
  - now apply all_failed_counts.
  - now apply all_failed_counts.
  - rewrite all_failed_no_successful by assumption. reflexivity.
Qed.

Lemma successful_strings_check results :
  successful_are_strings results ->
  forallb (fun r => isinstance_str (Result.content r))
    (filter (fun r => is_None (Result.error r)) results) = true.
Proof.
  intros Hstr. apply forallb_forall. intros r Hr.
  apply filter_In in Hr. destruct Hr as [Hin Hnone].
  destruct (Result.error r) eqn:E; [discriminate|].
  destruct (Hstr r Hin E) as [s ->]. reflexivity.
Qed.

Lemma join_cons sep p q rest :
  join sep (p :: q :: rest) = p ++ sep ++ join sep (q :: rest).
Proof. reflexivity. Qed.

Lemma chunk_block_of_string r s :
  Result.content r = PStr s ->
  chunk_block r
  = lit "[Chunk " ++ str_of_int (Result.chunk_id r) ++ lit "]:" ++ nl ++ s.
Proof. intros Hs. unfold chunk_block. now rewrite Hs. Qed.

Lemma joined_blocks results :
  successful_are_strings results ->
  forall first,
    blocks_with_separators first results
    = match filter (fun r => is_None (Result.error r)) results with
      | [] => []
      | successful =>
          (if first then [] else nl ++ nl)
          ++ join (nl ++ nl) (map chunk_block successful)
      end.
Proof.
  induction results as [|r results IH]; intros Hstr first;
    [reflexivity|].
  assert (Hstr' : successful_are_strings results)
    by (intros r' Hin; apply Hstr; now right).
  cbn [blocks_with_separators filter].
  destruct (Result.error r) eqn:E; cbn [is_None].
  - now apply IH.
  - destruct (Hstr r (or_introl eq_refl) E) as [s Hs].
    rewrite Hs, (IH Hstr' false).
    destruct (filter _ results) as [|r' successful] eqn:F.
    + cbn [map join]. rewrite (chunk_block_of_string r s Hs).
      now rewrite !app_nil_r.
    + cbn [map]. rewrite join_cons. f_equal.
      rewrite (chunk_block_of_string r s Hs).
      now rewrite <- !app_assoc.
Qed.

(** C6. For every Result sequence in which every Result without error
    carries a string, the aggregated content is the text made of one
    block [[Chunk <id>]:\n<content>] per such Result, in sequence order,
    with the separator [\n\n] between consecutive blocks; a Result with
    an error contributes nothing. *)
Theorem aggregate_joins_string_blocks results :
  successful_are_strings results ->
  aggregated (aggregate_results results)
  = PStr (blocks_with_separators true results).
Proof.
  intros Hstr. unfold aggregate_results. cbn [aggregated].
  rewrite (successful_strings_check results Hstr).
  rewrite (joined_blocks results Hstr true).
  now destruct (filter _ results).
Qed.

Lemma filter_map_commute {X Y} (f : X -> Y) (p : Y -> bool) (l : list X) :
  filter p (map f l) = map f (filter (fun a => p (f a)) l).
Proof.
  induction l as [|a l IH]; simpl; [reflexivity|].
  destruct (p (f a)); simpl; now rewrite IH.
Qed.

Lemma forallb_map_commute {X Y} (f : X -> Y) (p : Y -> bool) (l : list X) :
  forallb p (map f l) = forallb (fun a => p (f a)) l.
Proof.
  induction l as [|a l IH]; simpl; [reflexivity|]. now rewrite IH.
Qed.

Lemma fold_left_map_commute {X Y W} (f : X -> Y) (g : W -> Y -> W)
  (l : list X) :
  forall acc, fold_left g (map f l) acc = fold_left (fun c a => g c (f a)) l acc.
Proof.
  induction l as [|a l IH]; intros acc; simpl; [reflexivity|]. apply IH.
Qed.

(** Apart from the total time, a reply depends on the Results only up to
    their timing field. *)
Lemma aggregate_untimed results :
  untimed_reply (aggregate_results (map untimed results))
  = untimed_reply (aggregate_results results).
Proof.
  unfold aggregate_results, untimed_reply. cbn -[filter forallb join].
  rewrite !filter_map_commute. cbn [untimed Result.error].
  rewrite !forallb_map_commute, !map_map, !length_map,
    fold_left_map_commute.
  reflexivity.
Qed.

End Aggregation.

(* ================================================================== *)
(** * Determinism, model selection, prompts *)
(* ================================================================== *)

Section Determinism.

Import AgentManager.
Context {B : Builtins}.

Lemma sync_result_untimed self sched1 sched2 task :
  untimed (sync_result self sched1 task)
  = untimed (sync_result self sched2 task).
Proof.
  unfold sync_result. rewrite !process_single_chunk_cases. simpl.
  destruct (llm_query_fn self) as [llm|]; [|reflexivity].
  destruct (llm _ _); reflexivity.
Qed.

Lemma async_result_untimed self clock1 clock2 task :
  untimed (async_result self clock1 task)
  = untimed (async_result self clock2 task).
Proof.
  rewrite !async_result_cases.
  destruct (executor_shutdown self); [reflexivity|].
  apply (sync_result_untimed self
           {| order := []; clock := clock1 |}
           {| order := []; clock := clock2 |}).
Qed.

Lemma untimed_results_same_reply results1 results2 :
  map untimed results1 = map untimed results2 ->
  untimed_reply (aggregate_results results1)
  = untimed_reply (aggregate_results results2).
Proof.
  intros Hsame.
  now rewrite <- (aggregate_untimed results1), Hsame, aggregate_untimed.
Qed.

(** C8. Two runs of dispatch followed by [aggregate_results] on the
    same chunks and query, with the same manager (hence the same
    worker, a function of its arguments), give the same Results and the
    same reply once the timing fields are blanked, whatever the order
    in which the workers complete and whatever the clock readings. *)
Theorem dispatch_then_aggregate_deterministic
  self sched1 sched2 chunks query :
  constructed self ->
  completes_each_once sched1 (length chunks) ->
  completes_each_once sched2 (length chunks) ->
  (exists results1 results2,
      process_chunks_sync self sched1 chunks query = Returned results1
      /\ process_chunks_sync self sched2 chunks query = Returned results2
      /\ map untimed results1 = map untimed results2
      /\ untimed_reply (aggregate_results results1)
         = untimed_reply (aggregate_results results2))
  /\ (exists results1 results2,
         process_chunks_async self (clock sched1) chunks query
         = Returned results1
         /\ process_chunks_async self (clock sched2) chunks query
            = Returned results2
         /\ map untimed results1 = map untimed results2
         /\ untimed_reply (aggregate_results results1)
            = untimed_reply (aggregate_results results2)).
Proof.
  intros Hself Hsched1 Hsched2. split.
  - rewrite (sync_in_task_order self sched1 chunks query Hself Hsched1).
    rewrite (sync_in_task_order self sched2 chunks query Hself Hsched2).
    assert (Hsame :
             map untimed
               (map (sync_result self sched1) (build_tasks chunks query))
             = map untimed
                 (map (sync_result self sched2) (build_tasks chunks query))).
    { rewrite !map_map. apply map_ext. intros task.
      apply sync_result_untimed. }
    do 2 eexists. split; [reflexivity|]. split; [reflexivity|].
    split; [exact Hsame|now apply untimed_results_same_reply].
  - rewrite !(async_in_task_order self _ chunks query Hself).
    assert (Hsame :
             map untimed
               (map (async_result self (clock sched1))
                  (build_tasks chunks query))
             = map untimed
                 (map (async_result self (clock sched2))
                    (build_tasks chunks query))).
    { rewrite !map_map. apply map_ext. intros task.
      apply async_result_untimed. }
    do 2 eexists. split; [reflexivity|]. split; [reflexivity|].
    split; [exact Hsame|now apply untimed_results_same_reply].
Qed.

Lemma str_eqb_eq a : forall b, str_eqb a b = true <-> a = b.
Proof.
  induction a as [|x a IH]; intros [|y b]; simpl;
    try (split; [discriminate|discriminate]); [now split|].
  rewrite andb_true_iff, N.eqb_eq, IH.
  split; [intros [-> ->]; reflexivity|intros [= -> ->]; now split].
Qed.

Lemma build_tasks_from_task_type chunks query :
  forall start,
    Forall (fun task => ChunkTask.task_type task = lit "query")
      (build_tasks_from start chunks query).
Proof.
  induction chunks as [|c chunks IH]; intros start; simpl;
    constructor; [reflexivity|apply IH].
Qed.

(** C4, as the code has it. The model tag is ["sonnet"] exactly for the
    task types ["analysis"] and ["synthesis"], and ["haiku"] for every
    other task type: for ["extraction"], and also for ["query"]. Every
    task that dispatch builds has the type ["query"] and gets the model
    ["haiku"]. *)
Theorem select_model_table task :
  (_select_model task = lit "sonnet"
   <-> ChunkTask.task_type task = lit "analysis"
       \/ ChunkTask.task_type task = lit "synthesis")
  /\ (_select_model task = lit "haiku"
      <-> ChunkTask.task_type task <> lit "analysis"
          /\ ChunkTask.task_type task <> lit "synthesis")
  /\ (ChunkTask.task_type task = lit "extraction"
      \/ ChunkTask.task_type task = lit "query" ->
      _select_model task = lit "haiku")
  /\ (forall chunks query,
         Forall (fun built =>
                   ChunkTask.task_type built = lit "query"
                   /\ _select_model built = lit "haiku")
           (build_tasks chunks query)).
Proof.
  assert (Hcases :
           forall t,
             (ChunkTask.task_type t = lit "extraction"
              /\ _select_model t = lit "haiku")
             \/ (ChunkTask.task_type t = lit "analysis"
                 /\ _select_model t = lit "sonnet")
             \/ (ChunkTask.task_type t = lit "synthesis"
                 /\ _select_model t = lit "sonnet")
             \/ (ChunkTask.task_type t <> lit "analysis"
                 /\ ChunkTask.task_type t <> lit "synthesis"
                 /\ _select_model t = lit "haiku")).
  { intros t. unfold _select_model.
    destruct (str_eqb (ChunkTask.task_type t) (lit "extraction")) eqn:E1;
      [apply str_eqb_eq in E1; now left|].
    destruct (str_eqb (ChunkTask.task_type t) (lit "analysis")) eqn:E2;
      [apply str_eqb_eq in E2; right; now left|].
    destruct (str_eqb (ChunkTask.task_type t) (lit "synthesis")) eqn:E3;
      [apply str_eqb_eq in E3; right; right; now left|].
    right; right; right.
    repeat split; try reflexivity; intros Heq; apply str_eqb_eq in Heq;
      congruence. }
  split; [|split; [|split]].
  - destruct (Hcases task) as [[Ht ->]|[[Ht ->]|[[Ht ->]|[Hn1 [Hn2 ->]]]]];
      rewrite ?Ht; split; try discriminate; auto;
      intros [Heq|Heq]; try discriminate Heq; contradiction.
  - destruct (Hcases task) as [[Ht ->]|[[Ht ->]|[[Ht ->]|[Hn1 [Hn2 ->]]]]];
      rewrite ?Ht; split; try discriminate; auto;
      try (intros _; split; discriminate);
      intros [Hn1 Hn2]; contradiction.
  - unfold _select_model. intros [-> | ->]; reflexivity.
  - intros chunks query.
    eapply Forall_impl; [|apply (build_tasks_from_task_type chunks query 0)].
    intros built Hq. split; [exact Hq|].
    unfold _select_model. now rewrite Hq.
Qed.

Lemma build_prompt_parts task :
  _build_prompt task
  = preamble (ChunkTask.query task) (ChunkTask.id task)
    ++ slice (py_str (ChunkTask.content task)) 0 10000
    ++ epilogue (ChunkTask.query task).
Proof.
  unfold _build_prompt, preamble, epilogue.
  destruct (truthy_query (ChunkTask.query task));
    now rewrite <- !app_assoc.
Qed.

(** C9. The prompt of a task is a function of the task: a preamble
    fixed by the query and the id of the task, then the first 10 000
    characters of [str()] of the payload, then a closing instruction
    fixed by the presence of a query. Its length exceeds the length of
    these two fixed texts by at most 10 000, whatever the size of the
    payload. *)
Theorem prompt_is_bounded task :
  let payload := py_str (ChunkTask.content task) in
  let before := preamble (ChunkTask.query task) (ChunkTask.id task) in
  let after := epilogue (ChunkTask.query task) in
  _build_prompt task = before ++ firstn (Z.to_nat 10000) payload ++ after
  /\ (Z.of_nat (length (_build_prompt task))
      = Z.of_nat (length before)
        + Z.min (Z.of_nat (length payload)) 10000
        + Z.of_nat (length after))%Z
  /\ (Z.of_nat (length (_build_prompt task))
      <= Z.of_nat (length before) + 10000 + Z.of_nat (length after))%Z.
Proof.
  intros payload before after.
  assert (Hparts : _build_prompt task
                   = before ++ firstn (Z.to_nat 10000) payload ++ after).
  { rewrite build_prompt_parts, slice_prefix by lia. reflexivity. }
  split; [exact Hparts|].
  rewrite Hparts, !length_app, length_firstn. lia.
Qed.

End Determinism.

(* ================================================================== *)
(** * Worked examples for the manager *)
(* ================================================================== *)

Lemma in_order_completes :
  AgentManager.completes_each_once Examples.in_order 3.
Proof. unfold AgentManager.completes_each_once. reflexivity. Defined.

Lemma cleaned_up_constructed : AgentManager.constructed Examples.cleaned_up.
Proof. apply AgentManager.constructed_cleanup, fresh_constructed. Defined.

(** Three chunks, the worker raises for the second one only (scenario 6
    of the specification): two Results are fine, one carries the error,
    and they come back in the order of the chunks although the second
    future completed first. *)
Example one_failing_chunk :
  AgentManager.process_chunks_sync (B := example_builtins)
    (Examples.fresh (Some Examples.picky_worker))
    Examples.shuffled Examples.three_chunks (lit "Analyze content")
  = Returned Examples.three_results.
Proof. vm_compute. reflexivity. Qed.

Example one_failing_chunk_reply :
  forall results,
    AgentManager.process_chunks_sync (B := example_builtins)
      (Examples.fresh (Some Examples.picky_worker))
      Examples.shuffled Examples.three_chunks (lit "Analyze content")
    = Returned results ->
    AgentManager.aggregate_results (B := example_builtins) results
    = {| AgentManager.aggregated :=
           PStr (lit "[Chunk 0]:" ++ nl ++ lit "haiku" ++ nl ++ nl
                 ++ lit "[Chunk 2]:" ++ nl ++ lit "haiku");
         AgentManager.chunks_processed := 2;
         AgentManager.chunks_failed := 1;
         AgentManager.total_processing_time_ms := 750%float;
         AgentManager.errors := [(1%Z, Some (lit "boom"))] |}.
Proof.
  intros results Hrun. rewrite one_failing_chunk in Hrun.
  injection Hrun as <-. vm_compute. reflexivity.
Qed.

Lemma fresh_with_constructed llm :
  AnyWorker.constructed (Examples.fresh_with llm).
Proof. now apply (AnyWorker.constructed_init 2 llm). Defined.

Lemma picky_callable_checked :
  AnyWorker.raises_only_exceptions
    (Examples.fresh_with (Some Examples.picky_callable)).
Proof.
  intros llm prompt model Hllm. injection Hllm as <-.
  unfold Examples.picky_callable. discriminate.
Defined.

Lemma dispatch_never_raises_witness :
  let self := Examples.fresh_with (Some Examples.picky_callable) in
  AnyWorker.constructed self
  /\ AgentManager.completes_each_once Examples.shuffled
       (length Examples.three_chunks)
  /\ AnyWorker.raises_only_exceptions self
  /\ exists results results_async,
      AnyWorker.process_chunks_sync (B := example_builtins) self
        Examples.shuffled Examples.three_chunks (lit "Analyze content")
      = Ends (Returned results)
      /\ AnyWorker.process_chunks_async (B := example_builtins) self
           (AgentManager.clock Examples.shuffled)
           Examples.three_chunks (lit "Analyze content")
         = Ends (Returned results_async)
      /\ length results = length Examples.three_chunks
      /\ length results_async = length Examples.three_chunks
      /\ (forall r, In r (results ++ results_async) ->
                    Result.error r <> None -> Result.content r = PNone)
      /\ (forall llm i task e,
             AnyWorker.llm_query_fn self = Some llm ->
             nth_error
               (AgentManager.build_tasks Examples.three_chunks
                  (lit "Analyze content")) i = Some task ->
             llm (AgentManager._build_prompt (B := example_builtins) task)
                 (AgentManager._select_model task) = Ends (Raised e) ->
             (exists r,
                 nth_error results i = Some r
                 /\ Result.chunk_id r = ChunkTask.id task
                 /\ Result.error r = Some (str_of_exc e)
                 /\ Result.content r = PNone)
             /\ (exists r,
                    nth_error results_async i = Some r
                    /\ Result.error r
                       = Some (if AnyWorker.executor_shutdown self
                               then lit "cannot schedule new futures after shutdown"
                               else str_of_exc e)
                    /\ Result.content r = PNone)).
Proof.
  intros self.
  split; [apply fresh_with_constructed|].
  split; [apply shuffled_completes|].
  split; [apply picky_callable_checked|].
  apply (dispatch_never_raises (B := example_builtins) self);
    [apply fresh_with_constructed|apply shuffled_completes
    |apply picky_callable_checked].
Defined.

(** The callable that raises [ValueError("boom")] for the chunk with
    id 1 gives what the worker of [one_failing_chunk] gives. *)
Example one_failing_chunk_any_callable :
  AnyWorker.process_chunks_sync (B := example_builtins)
    (Examples.fresh_with (Some Examples.picky_callable))
    Examples.shuffled Examples.three_chunks (lit "Analyze content")
  = Ends (Returned Examples.three_results).
Proof. vm_compute. reflexivity. Qed.

(** C2 fails on the code: a callable that calls [sys.exit()] for the
    chunk with id 1 raises nothing that [except Exception] catches;
    [_process_single_chunk] lets the [SystemExit] pass into the future,
    [future.result()] raises it again, and [process_chunks_sync] ends
    with it instead of returning Results. *)
Lemma system_exit_leaves_dispatch :
  let self := Examples.fresh_with (Some Examples.exiting_callable) in
  AnyWorker.constructed self
  /\ AgentManager.completes_each_once Examples.shuffled
       (length Examples.three_chunks)
  /\ (exists task,
         nth_error
           (AgentManager.build_tasks Examples.three_chunks
              (lit "Analyze content")) 1 = Some task
         /\ Examples.exiting_callable
              (AgentManager._build_prompt (B := example_builtins) task)
              (AgentManager._select_model task) = Escapes
         /\ AnyWorker._process_single_chunk (B := example_builtins) self
              (Examples.steady_clock 1) task = Escapes)
  /\ AnyWorker.process_chunks_sync (B := example_builtins) self
       Examples.shuffled Examples.three_chunks (lit "Analyze content")
     = Escapes
  /\ (forall results,
         AnyWorker.process_chunks_sync (B := example_builtins) self
           Examples.shuffled Examples.three_chunks (lit "Analyze content")
         <> Ends (Returned results)).
Proof.
  intros self.
  split; [apply fresh_with_constructed|].
  split; [apply shuffled_completes|].
  split.
  { eexists. split; [reflexivity|]. split; vm_compute; reflexivity. }
  assert (Hrun :
            AnyWorker.process_chunks_sync (B := example_builtins) self
              Examples.shuffled Examples.three_chunks (lit "Analyze content")
            = Escapes)
    by (vm_compute; reflexivity).
  split; [exact Hrun|].
  intros results. rewrite Hrun. discriminate.
Qed.



(** C4 fails on the code: the task that dispatch builds for a chunk and
    a user query is given the model ["haiku"], which is also the tag the
    worker receives. *)
Lemma dispatched_task_gets_haiku :
  map AgentManager._select_model
    (AgentManager.build_tasks [Examples.hello_chunk] (lit "Analyze content"))
  = [lit "haiku"]
  /\ lit "haiku" <> lit "sonnet"
  /\ AgentManager.process_chunks_sync (B := example_builtins)
       (Examples.fresh (Some Examples.picky_worker))
       {| AgentManager.order := [0];
          AgentManager.clock := Examples.steady_clock |}
       [Examples.hello_chunk] (lit "Analyze content")
     = Returned
         [ {| Result.chunk_id := 0;
              Result.content := PStr (lit "haiku");
              Result.processing_time_ms := 250%float;
              Result.model_used := lit "haiku";
              Result.error := None |} ].
Proof.
  split; [reflexivity|].
  split; [discriminate|].
  vm_compute. reflexivity.
Qed.

Lemma three_results_strings :
  AgentManager.successful_are_strings Examples.three_results.
Proof.
  intros r [<-|[<-|[<-|[]]]] Herr;
    try discriminate Herr; now exists (lit "haiku").
Defined.

Lemma aggregate_joins_string_blocks_witness :
  AgentManager.successful_are_strings Examples.three_results
  /\ AgentManager.aggregated
       (AgentManager.aggregate_results (B := example_builtins)
          Examples.three_results)
     = PStr (AgentManager.blocks_with_separators true Examples.three_results).
Proof.
  split; [apply three_results_strings|].
  apply (aggregate_joins_string_blocks (B := example_builtins)).
  apply three_results_strings.
Defined.

Lemma dispatch_then_aggregate_deterministic_witness :
  AgentManager.constructed (Examples.fresh (Some Examples.picky_worker))
  /\ AgentManager.completes_each_once Examples.shuffled
       (length Examples.three_chunks)
  /\ AgentManager.completes_each_once Examples.in_order
       (length Examples.three_chunks)
  /\ (exists results1 results2,
         AgentManager.process_chunks_sync (B := example_builtins)
           (Examples.fresh (Some Examples.picky_worker))
           Examples.shuffled Examples.three_chunks (lit "Analyze content")
         = Returned results1
         /\ AgentManager.process_chunks_sync (B := example_builtins)
              (Examples.fresh (Some Examples.picky_worker))
              Examples.in_order Examples.three_chunks (lit "Analyze content")
            = Returned results2
         /\ map AgentManager.untimed results1
            = map AgentManager.untimed results2
         /\ AgentManager.untimed_reply
              (AgentManager.aggregate_results (B := example_builtins) results1)
            = AgentManager.untimed_reply
                (AgentManager.aggregate_results (B := example_builtins)
                   results2))
  /\ (exists results1 results2,
         AgentManager.process_chunks_async (B := example_builtins)
           (Examples.fresh (Some Examples.picky_worker))
           (AgentManager.clock Examples.shuffled)
           Examples.three_chunks (lit "Analyze content")
         = Returned results1
         /\ AgentManager.process_chunks_async (B := example_builtins)
              (Examples.fresh (Some Examples.picky_worker))
              (AgentManager.clock Examples.in_order)
              Examples.three_chunks (lit "Analyze content")
            = Returned results2
         /\ map AgentManager.untimed results1
            = map AgentManager.untimed results2
         /\ AgentManager.untimed_reply
              (AgentManager.aggregate_results (B := example_builtins) results1)
            = AgentManager.untimed_reply
                (AgentManager.aggregate_results (B := example_builtins)
                   results2)).
Proof.
  split; [apply fresh_constructed|].
  split; [apply shuffled_completes|].
  split; [apply in_order_completes|].
  apply (dispatch_then_aggregate_deterministic (B := example_builtins));
    [apply fresh_constructed|apply shuffled_completes
    |apply in_order_completes].
Defined.

Lemma no_worker_placeholders_witness :
  AgentManager.constructed (Examples.fresh None)
  /\ AgentManager.llm_query_fn (Examples.fresh None) = None
  /\ AgentManager.completes_each_once Examples.shuffled
       (length Examples.three_chunks)
  /\ AgentManager.process_chunks_sync (B := example_builtins)
       (Examples.fresh None) Examples.shuffled Examples.three_chunks
       (lit "Analyze content")
     = Returned
         [ {| Result.chunk_id := 0;
              Result.content := PStr (lit "[Processed chunk 0: 11 chars]");
              Result.processing_time_ms := 250%float;
              Result.model_used := lit "haiku";
              Result.error := None |};
           {| Result.chunk_id := 1;
              Result.content := PStr (lit "[Processed chunk 1: 6 chars]");
              Result.processing_time_ms := 250%float;
              Result.model_used := lit "haiku";
              Result.error := None |};
           {| Result.chunk_id := 2;
              Result.content := PStr (lit "[Processed chunk 2: 9 chars]");
              Result.processing_time_ms := 250%float;
              Result.model_used := lit "haiku";
              Result.error := None |} ].
Proof.
  split; [apply fresh_constructed|].
  split; [reflexivity|].
  split; [apply shuffled_completes|].
  exact (proj1 (no_worker_placeholders (B := example_builtins)
                  (Examples.fresh None) Examples.shuffled
                  Examples.three_chunks (lit "Analyze content")
                  (fresh_constructed None) eq_refl shuffled_completes)).
Defined.

(** The payload of the third chunk is the chunk itself, a dict without
    ['content']: [str()] of it has nine characters. *)
Example third_chunk_payload :
  py_str (B := example_builtins)
    (AgentManager.chunk_payload Examples.third_chunk)
  = lit "{'id': 2}".
Proof. vm_compute. reflexivity. Qed.

(** C10 fails on the code: a manager constructed without a worker and
    cleaned up answers [process_chunks_async] with the refusal of its
    pool, a Result with an error and without content, in the place of
    the placeholder. *)
Lemma cleaned_up_async_has_no_placeholder :
  AgentManager.constructed Examples.cleaned_up
  /\ AgentManager.llm_query_fn Examples.cleaned_up = None
  /\ AgentManager.process_chunks_async (B := example_builtins)
       Examples.cleaned_up Examples.steady_clock
       [Examples.hello_chunk] (lit "Analyze content")
     = Returned
         [ {| Result.chunk_id := (-1)%Z;
              Result.content := PNone;
              Result.processing_time_ms := 0%float;
              Result.model_used := lit "haiku";
              Result.error :=
                Some (lit "cannot schedule new futures after shutdown") |} ]
  /\ AgentManager.process_chunks_async (B := example_builtins)
       Examples.cleaned_up Examples.steady_clock
       [Examples.hello_chunk] (lit "Analyze content")
     <> Returned
          [ {| Result.chunk_id := 0;
               Result.content := PStr (lit "[Processed chunk 0: 11 chars]");
               Result.processing_time_ms := 250%float;
               Result.model_used := lit "haiku";
               Result.error := None |} ]
  /\ AgentManager.process_chunks_sync (B := example_builtins)
       Examples.cleaned_up Examples.single
       [Examples.hello_chunk] (lit "Analyze content")
     = Returned
         [ {| Result.chunk_id := 0;
              Result.content := PStr (lit "[Processed chunk 0: 11 chars]");
              Result.processing_time_ms := 250%float;
              Result.model_used := lit "haiku";
              Result.error := None |} ].
Proof.
  split; [apply cleaned_up_constructed|].
  split; [reflexivity|].
  split; [vm_compute; reflexivity|].
  split; [vm_compute; discriminate|].
  vm_compute. reflexivity.
Qed.

(* ================================================================== *)
(** * Binary64 arithmetic of the token heuristic *)
(* ================================================================== *)

Section FloatFacts.

Import TokenEfficiencyAnalyzer.

Local Open Scope Z_scope.

Lemma digits2_pos_size p : digits2_pos p = Pos.size p.
Proof. induction p; simpl; now rewrite ?IHp. Qed.

Lemma digits2_pos_upper p : Zpos p < 2 ^ Zpos (digits2_pos p).
Proof.
  rewrite digits2_pos_size.
  pose proof (Pos.size_gt p) as Hgt.
  apply Pos2Z.pos_lt_pos in Hgt.
  now rewrite Pos2Z.inj_pow in Hgt.
Qed.

Lemma digits2_pos_lower p : 2 ^ (Zpos (digits2_pos p) - 1) <= Zpos p.
Proof.
  rewrite digits2_pos_size.
  pose proof (Pos.size_le p) as Hle.
  apply Pos2Z.pos_le_pos in Hle.
  rewrite Pos2Z.inj_pow in Hle.
  change (Zpos p~0) with (2 * Zpos p) in Hle.
  replace (Zpos (Pos.size p)) with (1 + (Zpos (Pos.size p) - 1)) in Hle by lia.
  rewrite Z.pow_add_r, Z.pow_1_r in Hle by lia.
  lia.
Qed.

Lemma Zdigits2_nonneg m : 0 <= Zdigits2 m.
Proof. destruct m; simpl; lia. Qed.

Lemma Zdigits2_upper m k : 0 <= m -> 0 <= k -> m < 2 ^ k -> Zdigits2 m <= k.
Proof.
  intros Hm Hk Hlt. destruct m as [|p|p]; simpl; [lia| |lia].
  destruct (Z.le_gt_cases (Zpos (digits2_pos p)) k) as [|Hgt]; [assumption|].
  pose proof (digits2_pos_lower p) as Hlow.
  assert (2 ^ k <= 2 ^ (Zpos (digits2_pos p) - 1))
    by (apply Z.pow_le_mono_r; lia).
  lia.
Qed.

Lemma Zdigits2_bound m : 0 <= m -> m < 2 ^ Zdigits2 m.
Proof.
  intros Hm. destruct m as [|p|p]; simpl; [lia|apply digits2_pos_upper|lia].
Qed.

Lemma shr_1_m mrs : 0 <= shr_m mrs -> shr_m (shr_1 mrs) = shr_m mrs / 2.
Proof.
  destruct mrs as [m r s]. cbn [shr_m]. intros Hm.
  destruct m as [|[p|p|]|p]; cbn [shr_1 shr_m]; try reflexivity; try lia.
  - apply Z.div_unique with 1; lia.
  - apply Z.div_unique with 0; lia.
Qed.

Lemma iter_shr_1_m p :
  forall mrs,
    0 <= shr_m mrs ->
    shr_m (SpecFloat.iter_pos shr_1 p mrs) = shr_m mrs / 2 ^ Zpos p.
Proof.
  induction p as [p IH|p IH|]; intros mrs Hm; simpl SpecFloat.iter_pos.
  - assert (H1 : 0 <= shr_m (shr_1 mrs))
      by (rewrite shr_1_m by assumption; apply Z.div_pos; lia).
    assert (H2 : 0 <= shr_m (SpecFloat.iter_pos shr_1 p (shr_1 mrs)))
      by (rewrite IH by assumption; apply Z.div_pos; lia).
    rewrite IH, IH, shr_1_m by assumption.
    rewrite !Z.div_div by lia. f_equal.
    replace (Zpos p~1) with (1 + Zpos p + Zpos p) by lia.
    rewrite !Z.pow_add_r, Z.pow_1_r by lia. lia.
  - assert (H2 : 0 <= shr_m (SpecFloat.iter_pos shr_1 p mrs))
      by (rewrite IH by assumption; apply Z.div_pos; lia).
    rewrite IH, IH by assumption.
    rewrite !Z.div_div by lia. f_equal.
    replace (Zpos p~0) with (Zpos p + Zpos p) by lia.
    rewrite !Z.pow_add_r by lia. lia.
  - rewrite shr_1_m by assumption. now rewrite Z.pow_1_r.
Qed.

Lemma shr_record_of_loc_m m l : shr_m (shr_record_of_loc m l) = m.
Proof. destruct l as [|[]]; reflexivity. Qed.

Lemma fexp_upper x K :
  x <= K -> emin <= K -> fexp prec emax x <= K.
Proof. unfold fexp, SpecFloat.emin, prec, emax. lia. Qed.

Lemma fexp_upper_exponent x K :
  x <= K -> K <= emax -> fexp prec emax x <= emax - prec.
Proof. unfold fexp, SpecFloat.emin, prec, emax. lia. Qed.

(** Shifting a mantissa to the exponent the format asks for keeps it
    non-negative and does not increase [digits + exponent]. *)
Lemma shr_fexp_bound m e l K :
  0 <= m ->
  Zdigits2 m + e <= K ->
  emin <= K ->
  e <= emax - prec ->
  K <= emax ->
  0 <= shr_m (fst (shr_fexp prec emax m e l))
  /\ Zdigits2 (shr_m (fst (shr_fexp prec emax m e l)))
     + snd (shr_fexp prec emax m e l) <= K
  /\ snd (shr_fexp prec emax m e l) <= emax - prec.
Proof.
  intros Hm HK Hmin He Hmax. unfold shr_fexp, shr.
  pose proof (fexp_upper _ _ HK Hmin) as Hf.
  pose proof (fexp_upper_exponent _ _ HK Hmax) as Hfe.
  destruct (fexp prec emax (Zdigits2 m + e) - e) as [|p|p] eqn:Hshift;
    cbn [fst snd]; rewrite ?shr_record_of_loc_m; try (repeat split; lia).
  rewrite iter_shr_1_m by (rewrite shr_record_of_loc_m; assumption).
  rewrite shr_record_of_loc_m.
  assert (Hq : 0 <= m / 2 ^ Zpos p) by (apply Z.div_pos; lia).
  split; [assumption|]. split; [|lia].
  destruct (Z.eq_dec (m / 2 ^ Zpos p) 0) as [->|Hnz]; [simpl; lia|].
  assert (Hpow : 0 < 2 ^ Zpos p) by (apply Z.pow_pos_nonneg; lia).
  assert (Hge : 2 ^ Zpos p <= m).
  { destruct (Z.lt_ge_cases m (2 ^ Zpos p)) as [Hlt|]; [|assumption].
    rewrite Z.div_small in Hnz by lia. contradiction. }
  pose proof (Zdigits2_bound m Hm) as Hd.
  pose proof (Zdigits2_nonneg m) as Hd0.
  assert (Hpd : Zpos p < Zdigits2 m).
  { apply (Z.pow_lt_mono_r_iff 2); lia. }
  assert (Zdigits2 (m / 2 ^ Zpos p) <= Zdigits2 m - Zpos p).
  { apply Zdigits2_upper; [assumption|lia|].
    apply Z.div_lt_upper_bound; [assumption|].
    rewrite <- Z.pow_add_r by lia.
    now replace (Zpos p + (Zdigits2 m - Zpos p)) with (Zdigits2 m) by lia. }
  lia.
Qed.

Lemma round_nearest_even_range m l :
  m <= round_nearest_even m l <= m + 1.
Proof.
  destruct l as [|[]]; simpl; try lia.
  destruct (Z.even m); lia.
Qed.

Lemma Zdigits2_succ m m' :
  0 <= m -> m <= m' <= m + 1 -> Zdigits2 m' <= Zdigits2 m + 1.
Proof.
  intros Hm Hm'.
  pose proof (Zdigits2_bound m Hm) as Hd.
  pose proof (Zdigits2_nonneg m) as Hd0.
  apply Zdigits2_upper; [lia|lia|].
  rewrite Z.pow_add_r, Z.pow_1_r by lia. lia.
Qed.

(** Rounding a positive mantissa gives a non-negative number that is
    zero or finite, one binary digit larger at most. *)
Lemma binary_round_aux_small m e l K :
  0 < m ->
  Zdigits2 m + e <= K ->
  emin <= K ->
  e <= emax - prec ->
  K + 1 <= emax ->
  small (K + 1) (binary_round_aux prec emax false m e l).
Proof.
  intros Hm HK Hmin He Hmax. unfold binary_round_aux.
  destruct (shr_fexp_bound m e l K) as [H0 [H1 H2]]; try lia.
  destruct (shr_fexp prec emax m e l) as [mrs' e'] eqn:Hfirst.
  cbn [fst snd] in H0, H1, H2.
  set (m2 := round_nearest_even (shr_m mrs') (loc_of_shr_record mrs')).
  pose proof (round_nearest_even_range (shr_m mrs') (loc_of_shr_record mrs'))
    as Hround. fold m2 in Hround.
  pose proof (Zdigits2_succ _ _ H0 Hround) as Hdigits.
  destruct (shr_fexp_bound m2 e' loc_Exact (K + 1)) as [G0 [G1 G2]];
    try lia.
  destruct (shr_fexp prec emax m2 e' loc_Exact) as [mrs'' e''] eqn:Hsecond.
  cbn [fst snd] in G0, G1, G2.
  destruct (shr_m mrs'') as [|p|p] eqn:Hfinal; [exact I| |lia].
  destruct (e'' <=? emax - prec) eqn:Hfit; [|apply Z.leb_gt in Hfit; lia].
  unfold small. cbn [Zdigits2] in G1. exact G1.
Qed.

Lemma small_exponent K m e :
  small K (S754_finite false m e) -> e <= K - 1.
Proof. unfold small. pose proof (Pos2Z.is_pos (digits2_pos m)). lia. Qed.

Lemma digits2_pos_mul p q :
  Zpos (digits2_pos (p * q)) <= Zpos (digits2_pos p) + Zpos (digits2_pos q).
Proof.
  change (Zpos (digits2_pos (p * q))) with (Zdigits2 (Zpos (p * q))).
  apply Zdigits2_upper; [lia|lia|].
  rewrite Z.pow_add_r, Pos2Z.inj_mul by lia.
  pose proof (digits2_pos_upper p). pose proof (digits2_pos_upper q).
  nia.
Qed.

(** The product of two non-negative numbers that are far from the
    overflow threshold is non-negative, and zero or finite. *)
Lemma SFmul_small Kx Ky x y :
  small Kx x ->
  small Ky y ->
  emin <= Kx + Ky ->
  Kx + Ky <= emax - prec ->
  small (Kx + Ky + 1) (SFmul prec emax x y).
Proof.
  intros Hx Hy Hmin Hmax.
  destruct x as [[|]| | |[|] mx ex]; try contradiction;
    destruct y as [[|]| | |[|] my ey]; try contradiction;
    try exact I.
  pose proof (small_exponent _ _ _ Hx). pose proof (small_exponent _ _ _ Hy).
  unfold small in Hx, Hy. cbn [SFmul xorb].
  pose proof (digits2_pos_mul mx my).
  apply binary_round_aux_small; cbn [Zdigits2]; unfold prec, emax in *; lia.
Qed.

Lemma digits2_pos_iter_xO d :
  forall m, Zpos (digits2_pos (Pos.iter xO m d)) = Zpos (digits2_pos m) + Zpos d.
Proof.
  induction d as [|d IH] using Pos.peano_ind; intros m.
  - simpl. lia.
  - rewrite Pos.iter_succ. cbn [digits2_pos]. rewrite Pos2Z.inj_succ, IH. lia.
Qed.

Lemma binary_normalize_small n :
  0 <= n < 2 ^ 63 ->
  small 64 (binary_normalize prec emax n 0 false).
Proof.
  intros [Hn Hlt]. destruct n as [|p|p]; [exact I| |lia].
  cbn [binary_normalize]. unfold binary_round.
  assert (Hd : Zpos (digits2_pos p) <= 63).
  { change (Zdigits2 (Zpos p) <= 63). apply Zdigits2_upper; lia. }
  destruct (shl_align p 0 (fexp prec emax (Zpos (digits2_pos p) + 0)))
    as [mz ez] eqn:Halign.
  assert (Hz : Zpos (digits2_pos mz) + ez = Zpos (digits2_pos p) /\ ez <= 0).
  { unfold shl_align in Halign.
    destruct (fexp prec emax (Zpos (digits2_pos p) + 0) - 0) as [|d|d] eqn:Hs;
      injection Halign as <- <-; try lia.
    rewrite digits2_pos_iter_xO.
    unfold fexp, SpecFloat.emin, prec, emax in *. lia. }
  change 64 with (63 + 1).
  apply binary_round_aux_small; cbn [Zdigits2]; unfold prec, emax, SpecFloat.emin; lia.
Qed.

End FloatFacts.

(* ================================================================== *)
(** * Properties of the token estimator *)
(* ================================================================== *)

Section Estimator.

Import TokenEfficiencyAnalyzer.
Local Open Scope Z_scope.

Lemma float_of_len_small n :
  Z.of_nat n < 2 ^ 63 -> small 64 (Prim2SF (float_of_len n)).
Proof.
  intros Hn. unfold float_of_len.
  rewrite of_uint63_spec, Uint63.of_Z_spec.
  rewrite Z.mod_small by (change wB with (2 ^ 63); lia).
  apply binary_normalize_small. lia.
Qed.

Lemma factors_small :
  small 1 (Prim2SF 1.3) /\ small 1 (Prim2SF 1.1)
  /\ small 1 (Prim2SF 1.4) /\ small 1 (Prim2SF 1.0).
Proof. repeat split; vm_compute; discriminate. Qed.

Lemma product_small Kx x y :
  emin <= Kx + 1 ->
  Kx + 1 <= emax - prec ->
  small Kx (Prim2SF x) ->
  small 1 (Prim2SF y) ->
  small (Kx + 2) (Prim2SF (x * y)).
Proof.
  intros Hmin Hmax Hx Hy.
  rewrite FloatAxioms.mul_spec. unfold SF64mul.
  replace (Kx + 2) with (Kx + 1 + 1) by lia.
  now apply SFmul_small.
Qed.

Lemma estimated_tokens_small n c :
  Z.of_nat n < 2 ^ 63 ->
  small 1 (Prim2SF c) ->
  small 70 (Prim2SF (float_of_len n * 1.3 * 1.1 * c)).
Proof.
  intros Hn Hc.
  destruct factors_small as [H13 [H11 _]].
  apply (product_small 68); [vm_compute; discriminate..| |exact Hc].
  apply (product_small 66); [vm_compute; discriminate..| |exact H11].
  apply (product_small 64); [vm_compute; discriminate..| |exact H13].
  now apply float_of_len_small.
Qed.

Lemma int_of_small_float K x :
  small K (Prim2SF x) ->
  exists k, int_of_float x = Returned k /\ 0 <= k.
Proof.
  unfold int_of_float, small.
  destruct (Prim2SF x) as [[|]| | |[|] m e]; try contradiction; intros _.
  - exists 0. split; [reflexivity|lia].
  - exists (Z.shiftl (Zpos m) e). split; [reflexivity|].
    apply Z.shiftl_nonneg. lia.
Qed.

Lemma code_indicators_distinct : NoDup code_indicators.
Proof.
  unfold code_indicators.
  repeat (constructor; [cbn; intuition discriminate|]).
  constructor.
Qed.

Lemma indicator_count_length (found : list str) :
  list_sum (map (fun _ => 1%nat) found) = length found.
Proof. induction found; simpl; now rewrite ?IHfound. Qed.

(** The count of [_looks_like_code] reaches three exactly when three
    different markers occur in the content. *)
Lemma looks_like_code_iff content :
  _looks_like_code content = true <-> has_three_markers content.
Proof.
  unfold _looks_like_code. rewrite indicator_count_length, Nat.leb_le.
  set (found := filter (fun indicator => contains indicator content)
                  code_indicators).
  assert (Hnodup : NoDup found)
    by (apply NoDup_filter, code_indicators_distinct).
  assert (Hfound : forall m, In m found
                             <-> In m code_indicators
                                 /\ contains m content = true)
    by (intros m;
        exact (filter_In (fun indicator => contains indicator content)
                 m code_indicators)).
  split.
  - intros Hlen.
    destruct found as [|a [|b [|c rest]]]; simpl in Hlen; try lia.
    exists a, b, c.
    inversion Hnodup as [|? ? Ha Hnodup']; subst.
    inversion Hnodup' as [|? ? Hb _]; subst.
    destruct (proj1 (Hfound a)) as [? ?]; [now left|].
    destruct (proj1 (Hfound b)) as [? ?]; [right; now left|].
    destruct (proj1 (Hfound c)) as [? ?]; [right; right; now left|].
    repeat split; try assumption.
    + intros ->. apply Ha. now left.
    + intros ->. apply Ha. right. now left.
    + intros ->. apply Hb. now left.
  - intros [a [b [c [Hab [Hac [Hbc [Ia [Ib [Ic [Ca [Cb Cc]]]]]]]]]]].
    change 3%nat with (length [a; b; c]).
    apply NoDup_incl_length.
    + repeat constructor; simpl; intuition congruence.
    + intros m [<-|[<-|[<-|[]]]]; apply Hfound; now split.
Qed.

(** Newline translation changes neither the words nor the markers of
    a text: CR and LF are both white space, and no marker holds one. *)
Lemma universal_newlines_split_from n :
  forall s word,
    (length s <= n)%nat ->
    split_from word (universal_newlines s) = split_from word s.
Proof.
  induction n as [|n IH]; intros s word Hlen.
  - destruct s; [reflexivity|simpl in Hlen; lia].
  - destruct s as [|c rest]; [reflexivity|].
    cbn [length] in Hlen. cbn [universal_newlines].
    destruct (c =? 13)%N eqn:Ecr.
    + apply N.eqb_eq in Ecr. subst c.
      destruct rest as [|c' rest'].
      * now destruct word.
      * cbn [length] in Hlen. destruct (c' =? 10)%N eqn:Elf.
        -- apply N.eqb_eq in Elf. subst c'.
           cbn [split_from].
           change (isspace 10%N) with true. change (isspace 13%N) with true.
           cbn iota. rewrite (IH rest' []) by lia.
           now destruct word.
        -- cbn [split_from].
           change (isspace 10%N) with true. change (isspace 13%N) with true.
           cbn iota.
           rewrite (IH (c' :: rest') []) by (cbn [length]; lia).
           now destruct word.
    + cbn [split_from].
      destruct (isspace c); [destruct word|]; now rewrite IH by lia.
Qed.

Lemma universal_newlines_split s :
  split (universal_newlines s) = split s.
Proof. exact (universal_newlines_split_from _ s [] (Nat.le_refl _)). Qed.

Lemma universal_newlines_startswith needle :
  Forall (fun c => c <> 10%N /\ c <> 13%N) needle ->
  needle <> [] ->
  forall s, startswith needle (universal_newlines s) = startswith needle s.
Proof.
  induction 1 as [|x needle [Hlf Hcr] Hrest IH]; intros Hsome s;
    [contradiction|].
  destruct s as [|c rest]; [reflexivity|].
  cbn [universal_newlines].
  destruct (c =? 13)%N eqn:Ecr.
  - apply N.eqb_eq in Ecr. subst c. cbn [startswith].
    apply N.eqb_neq in Hlf, Hcr. now rewrite Hlf, Hcr.
  - cbn [startswith]. destruct (x =? c)%N; [|reflexivity].
    cbn [andb]. destruct needle as [|y needle]; [now destruct rest|].
    apply IH. discriminate.
Qed.

Lemma universal_newlines_cons c rest :
  universal_newlines (c :: rest)
  = if (c =? 13)%N
    then 10%N :: match rest with
                 | [] => []
                 | c' :: rest' =>
                     if (c' =? 10)%N
                     then universal_newlines rest'
                     else universal_newlines rest
                 end
    else c :: universal_newlines rest.
Proof. reflexivity. Qed.

Lemma contains_cons needle c hay :
  contains needle (c :: hay)
  = startswith needle (c :: hay) || contains needle hay.
Proof. reflexivity. Qed.

Lemma universal_newlines_contains needle n :
  Forall (fun c => c <> 10%N /\ c <> 13%N) needle ->
  needle <> [] ->
  forall s,
    (length s <= n)%nat ->
    contains needle (universal_newlines s) = contains needle s.
Proof.
  intros Hneedle Hsome.
  assert (Hfirst : forall c rest,
             (c = 10%N \/ c = 13%N) -> startswith needle (c :: rest) = false).
  { intros c rest Hc. destruct needle as [|x needle]; [contradiction|].
    apply Forall_inv in Hneedle. cbn [startswith].
    destruct (x =? c)%N eqn:E; [|reflexivity].
    apply N.eqb_eq in E. subst x. destruct Hneedle, Hc; contradiction. }
  induction n as [|n IH]; intros s Hlen.
  - destruct s; [reflexivity|simpl in Hlen; lia].
  - destruct s as [|c rest]; [reflexivity|].
    cbn [length] in Hlen.
    pose proof (universal_newlines_startswith needle Hneedle Hsome
                  (c :: rest)) as Hhead.
    rewrite universal_newlines_cons in *.
    destruct (c =? 13)%N eqn:Ecr.
    + apply N.eqb_eq in Ecr. subst c.
      destruct rest as [|c' rest'].
      * rewrite !contains_cons, !Hfirst by auto. reflexivity.
      * cbn [length] in Hlen. destruct (c' =? 10)%N eqn:Elf.
        -- apply N.eqb_eq in Elf. subst c'.
           rewrite !contains_cons, !Hfirst by auto.
           cbn [orb]. apply IH. lia.
        -- rewrite (contains_cons needle 10%N),
             (contains_cons needle 13%N), !Hfirst by auto.
           cbn [orb]. apply IH. cbn [length]. lia.
    + rewrite !contains_cons, Hhead, IH by lia. reflexivity.
Qed.

Lemma code_indicators_one_line :
  Forall (fun indicator =>
            Forall (fun c => c <> 10%N /\ c <> 13%N) indicator
            /\ indicator <> [])
    code_indicators.
Proof.
  repeat constructor; discriminate.
Qed.

Lemma universal_newlines_estimate s :
  _estimate_tokens_content (universal_newlines s)
  = _estimate_tokens_content s.
Proof.
  unfold _estimate_tokens_content, _looks_like_code.
  rewrite universal_newlines_split.
  rewrite (filter_ext_in
             (fun indicator => contains indicator (universal_newlines s))
             (fun indicator => contains indicator s)); [reflexivity|].
  intros indicator Hin.
  pose proof code_indicators_one_line as Hlines.
  rewrite Forall_forall in Hlines.
  destruct (Hlines indicator Hin) as [Hchars Hsome].
  exact (universal_newlines_contains indicator _ Hchars Hsome s
           (Nat.le_refl _)).
Qed.

(** C7, as the code has it. For a text blob (of fewer than [2^63]
    words, the bound of every Python length) the estimate is
    [int(words * 1.3 * 1.1 * c)] in binary64 arithmetic, where [words]
    counts the whitespace-delimited words and [c] is 1.4 when three
    different markers of the fixed set occur in the blob and 1.0
    otherwise; it is a non-negative integer. For a file that [open]
    refuses the estimate is the size reported by [stat] divided by 4,
    rounded down. For a file that can be read the estimate is the one of
    its decoded text, undecodable bytes being dropped: bytes that are
    not UTF-8 never lead to the size-based fallback. *)
Theorem token_estimate content :
  Z.of_nat (length (split content)) < 2 ^ 63 ->
  (exists tokens c,
      _estimate_tokens_content content = Returned tokens
      /\ 0 <= tokens
      /\ int_of_float
           (float_of_len (length (split content)) * 1.3 * 1.1 * c)%float
         = Returned tokens
      /\ (has_three_markers content /\ c = 1.4%float
          \/ ~ has_three_markers content /\ c = 1.0%float))
  /\ (forall fs file_path st_size,
         fs file_path = Some (Unreadable st_size) ->
         _estimate_tokens_file fs file_path = Returned (Z.of_N st_size / 4)
         /\ 0 <= Z.of_N st_size / 4)
  /\ (forall fs file_path data,
         fs file_path = Some (Regular data) ->
         decode_utf8_ignore (map Byte.to_N data) = content ->
         _estimate_tokens_file fs file_path
         = _estimate_tokens_content content).
Proof.
  intros Hwords.
  assert (Hreturns : exists tokens c,
             _estimate_tokens_content content = Returned tokens
             /\ 0 <= tokens
             /\ int_of_float
                  (float_of_len (length (split content)) * 1.3 * 1.1 * c)%float
                = Returned tokens
             /\ (has_three_markers content /\ c = 1.4%float
                 \/ ~ has_three_markers content /\ c = 1.0%float)).
  { destruct factors_small as [_ [_ [H14 H10]]].
    unfold _estimate_tokens_content.
    pose proof (looks_like_code_iff content) as Hcode.
    destruct (_looks_like_code content).
    - destruct (int_of_small_float 70 _
                  (estimated_tokens_small _ 1.4%float Hwords H14))
        as [k [Hk Hpos]].
      exists k, 1.4%float. repeat split; try assumption.
      left. split; [now apply Hcode|reflexivity].
    - destruct (int_of_small_float 70 _
                  (estimated_tokens_small _ 1.0%float Hwords H10))
        as [k [Hk Hpos]].
      exists k, 1.0%float. repeat split; try assumption.
      right. split; [|reflexivity].
      intros Hthree. apply Hcode in Hthree. discriminate. }
  split; [exact Hreturns|]. split.
  - intros fs file_path st_size Hnode.
    unfold _estimate_tokens_file, read_text, stat_size.
    rewrite Hnode. simpl. split; [reflexivity|].
    apply Z.div_pos; lia.
  - intros fs file_path data Hnode Hdecoded.
    unfold _estimate_tokens_file, read_text.
    rewrite Hnode, Hdecoded. cbn [bind].
    rewrite universal_newlines_estimate.
    destruct Hreturns as [tokens [_ [-> _]]]. reflexivity.
Qed.

End Estimator.

Lemma token_estimate_witness :
  (Z.of_nat (length (split Examples.snippet)) < 2 ^ 63)%Z
  /\ exists tokens c,
      TokenEfficiencyAnalyzer._estimate_tokens_content Examples.snippet
      = Returned tokens
      /\ (0 <= tokens)%Z
      /\ TokenEfficiencyAnalyzer.int_of_float
           (TokenEfficiencyAnalyzer.float_of_len
              (length (split Examples.snippet)) * 1.3 * 1.1 * c)%float
         = Returned tokens
      /\ (TokenEfficiencyAnalyzer.has_three_markers Examples.snippet
          /\ c = 1.4%float
          \/ ~ TokenEfficiencyAnalyzer.has_three_markers Examples.snippet
             /\ c = 1.0%float).
Proof.
  split; [vm_compute; reflexivity|].
  apply (token_estimate Examples.snippet). vm_compute. reflexivity.
Defined.

(** Eight words of code: [int(8 * 1.3 * 1.1 * 1.4)]. *)
Example snippet_estimate :
  TokenEfficiencyAnalyzer._looks_like_code Examples.snippet = true
  /\ length (split Examples.snippet) = 8
  /\ TokenEfficiencyAnalyzer._estimate_tokens_content Examples.snippet
     = Returned 16%Z.
Proof. repeat split; vm_compute; reflexivity. Qed.

(** C7 fails on the code: a file of twelve bytes, four of which cannot
    be decoded, is opened with [errors='ignore']; the estimate is the
    heuristic on the eight characters that remain, not the size-based
    fallback [12 // 4]. *)
Lemma undecodable_file_is_not_sized :
  TokenEfficiencyAnalyzer.stat_size Examples.photo_fs (lit "photo.jpg")
  = Returned 12%Z
  /\ TokenEfficiencyAnalyzer.read_text Examples.photo_fs (lit "photo.jpg")
     = Returned [0; 16; 74; 70; 73; 70; 0; 1]%N
  /\ TokenEfficiencyAnalyzer._estimate_tokens_file Examples.photo_fs
       (lit "photo.jpg")
     = Returned 1%Z
  /\ TokenEfficiencyAnalyzer._estimate_tokens_file Examples.photo_fs
       (lit "photo.jpg")
     <> Returned (12 / 4)%Z.
Proof.
  split; [reflexivity|].
  split; [vm_compute; reflexivity|].
  split; [vm_compute; reflexivity|].
  vm_compute. discriminate.
Qed.

(** A file with the line ends of three platforms: [a CR LF b CR c LF]
    is read as [a LF b LF c LF]. *)
Example mixed_line_ends :
  TokenEfficiencyAnalyzer.universal_newlines
    [97; 13; 10; 98; 13; 99; 10]%N
  = [97; 10; 98; 10; 99; 10]%N
  /\ TokenEfficiencyAnalyzer.universal_newlines [13; 13; 10]%N = [10; 10]%N.
Proof. split; reflexivity. Qed.

(** A file that [open] refuses: the fallback applies. *)
Example locked_file_estimate :
  TokenEfficiencyAnalyzer._estimate_tokens_file Examples.photo_fs
    (lit "locked.txt")
  = Returned 1024%Z.
Proof. vm_compute. reflexivity. Qed.

(* ================================================================== *)
(** * Further properties: batches *)
(* ================================================================== *)

Section Batches.

Import AgentManager.

Lemma batch_tasks_windows (tasks : list ChunkTask.t) (batch_size : Z) :
  (0 < batch_size)%Z ->
  let size := Z.to_nat batch_size in
  let count :=
    Z.to_nat ((Z.of_nat (length tasks) + batch_size - 1) / batch_size) in
  _batch_tasks tasks batch_size
  = Returned (map (fun k => firstn size (skipn (k * size) tasks))
                (seq 0 count))
  /\ length tasks <= count * size
  /\ (count = 0 \/ (count - 1) * size < length tasks).
Proof.
  intros Hsize size count.
  assert (Hdiv : (batch_size
                  * ((Z.of_nat (length tasks) + batch_size - 1) / batch_size)
                  <= Z.of_nat (length tasks) + batch_size - 1
                  < batch_size
                    * ((Z.of_nat (length tasks) + batch_size - 1) / batch_size)
                    + batch_size)%Z).
  { pose proof (Z.div_mod (Z.of_nat (length tasks) + batch_size - 1)
                  batch_size ltac:(lia)).
    pose proof (Z.mod_pos_bound (Z.of_nat (length tasks) + batch_size - 1)
                  batch_size Hsize).
    lia. }
  assert (Hnonneg : (0 <= (Z.of_nat (length tasks) + batch_size - 1)
                          / batch_size)%Z)
    by (apply Z.div_pos; lia).
  split; [|split].
  - unfold _batch_tasks, range.
    destruct (batch_size =? 0)%Z eqn:E0; [apply Z.eqb_eq in E0; lia|].
    destruct (0 <? batch_size)%Z eqn:E1; [|apply Z.ltb_ge in E1; lia].
    cbn [bind]. f_equal. rewrite map_map.
    replace (Z.of_nat (length tasks) - 0 + batch_size - 1)%Z
      with (Z.of_nat (length tasks) + batch_size - 1)%Z by lia.
    apply map_ext. intros k.
    rewrite <- (slice_window tasks (k * size) size).
    unfold size. f_equal; lia.
  - unfold count, size. nia.
  - unfold count, size.
    destruct (Z.eq_dec ((Z.of_nat (length tasks) + batch_size - 1)
                          / batch_size) 0) as [->|Hpos];
      [now left|right]. nia.
Qed.

(** X1. For a positive batch size [_batch_tasks] cuts the tasks into
    consecutive batches: gluing the batches gives the tasks back, no
    batch is empty, none holds more than [batch_size] tasks, every
    batch but the last is full, and there are
    [ceil(len(tasks) / batch_size)] batches. *)
Theorem batch_tasks_partition (tasks : list ChunkTask.t) (batch_size : Z) :
  (0 < batch_size)%Z ->
  exists batches,
    _batch_tasks tasks batch_size = Returned batches
    /\ concat batches = tasks
    /\ Forall (fun batch =>
                 0 < length batch
                 /\ (Z.of_nat (length batch) <= batch_size)%Z) batches
    /\ (forall k batch,
           nth_error batches k = Some batch ->
           S k < length batches ->
           Z.of_nat (length batch) = batch_size)
    /\ Z.of_nat (length batches)
       = ((Z.of_nat (length tasks) + batch_size - 1) / batch_size)%Z.
Proof.
  intros Hsize.
  destruct (batch_tasks_windows tasks batch_size Hsize)
    as [Hrun [Hcover Hlast]].
  set (size := Z.to_nat batch_size) in *.
  set (count := Z.to_nat ((Z.of_nat (length tasks) + batch_size - 1)
                            / batch_size)) in *.
  assert (Hwindow : forall k,
             k < count ->
             length (firstn size (skipn (k * size) tasks))
             = Nat.min size (length tasks - k * size))
    by (intros k _; now rewrite length_firstn, length_skipn).
  eexists. split; [exact Hrun|].
  split; [apply windows_concat; [unfold size; lia|exact Hcover]|].
  split; [|split].
  - rewrite Forall_map, Forall_forall. intros k Hk.
    apply in_seq in Hk. rewrite Hwindow by lia.
    assert (k * size <= (count - 1) * size) by (apply Nat.mul_le_mono_r; lia).
    unfold size in *. lia.
  - intros k batch Hnth Hk.
    rewrite length_map, length_seq in Hk.
    rewrite nth_error_map, nth_error_seq in Hnth.
    destruct (k <? count) eqn:E; [|apply Nat.ltb_ge in E; lia].
    cbn in Hnth. injection Hnth as <-. rewrite Hwindow by lia.
    assert (S k * size <= (count - 1) * size)
      by (apply Nat.mul_le_mono_r; lia).
    unfold size in *. lia.
  - rewrite length_map, length_seq. unfold count.
    apply Z2Nat.id, Z.div_pos; lia.
Qed.

(** X2. A batch size of zero makes [_batch_tasks] raise; a negative
    batch size makes it return no batch at all, whatever the tasks. *)
Theorem batch_tasks_degenerate (tasks : list ChunkTask.t) (batch_size : Z) :
  (batch_size = 0%Z ->
   _batch_tasks tasks batch_size
   = Raised (Exc (lit "range() arg 3 must not be zero")))
  /\ ((batch_size < 0)%Z -> _batch_tasks tasks batch_size = Returned []).
Proof.
  split.
  - intros ->. reflexivity.
  - intros Hneg. unfold _batch_tasks, range.
    destruct (batch_size =? 0)%Z eqn:E0; [apply Z.eqb_eq in E0; lia|].
    destruct (0 <? batch_size)%Z eqn:E1; [apply Z.ltb_lt in E1; lia|].
    assert (Hcount : ((0 - Z.of_nat (length tasks) - batch_size - 1)
                      / - batch_size < 1)%Z)
      by (apply Z.div_lt_upper_bound; lia).
    replace (Z.to_nat ((0 - Z.of_nat (length tasks) - batch_size - 1)
                         / - batch_size)) with 0 by lia.
    reflexivity.
Qed.

End Batches.

(* ================================================================== *)
(** * Further properties: aggregation *)
(* ================================================================== *)

Section DictMerge.

Import AgentManager.
Context {B : Builtins}.

Lemma str_eqb_true_eq a b : str_eqb a b = true -> a = b.
Proof. apply str_eqb_eq. Qed.

Lemma str_eqb_refl a : str_eqb a a = true.
Proof. now apply str_eqb_eq. Qed.

Lemma dict_get_set d key v k :
  dict_get (dict_set d key v) k
  = if str_eqb key k then Some v else dict_get d k.
Proof.
  induction d as [|[k0 w] d IH]; cbn [dict_set dict_get]; [reflexivity|].
  destruct (str_eqb k0 key) eqn:E0.
  - apply str_eqb_true_eq in E0. subst key. cbn [dict_get].
    now destruct (str_eqb k0 k).
  - cbn [dict_get]. rewrite IH.
    destruct (str_eqb k0 k) eqn:E1; [|reflexivity].
    apply str_eqb_true_eq in E1. subst k.
    destruct (str_eqb key k0) eqn:E2; [|reflexivity].
    apply str_eqb_true_eq in E2. subst key.
    rewrite str_eqb_refl in E0. discriminate.
Qed.

Lemma dict_get_app d1 d2 k :
  dict_get (d1 ++ d2) k
  = match dict_get d1 k with
    | Some v => Some v
    | None => dict_get d2 k
    end.
Proof.
  induction d1 as [|[k0 w] d1 IH]; cbn [app dict_get]; [reflexivity|].
  now destruct (str_eqb k0 k).
Qed.

(** After [d.update(other)] a key has the value [other] wrote last for
    it, and its old value when [other] does not mention it. *)
Lemma dict_get_update other :
  forall d k,
    dict_get (dict_update d other) k
    = match lookup_last other k with
      | Some v => Some v
      | None => dict_get d k
      end.
Proof.
  unfold dict_update, lookup_last.
  induction other as [|[k0 v0] other IH]; intros d k; [reflexivity|].
  cbn [fold_left fst snd rev]. rewrite IH, dict_get_app, dict_get_set.
  cbn [dict_get].
  destruct (dict_get (rev other) k); [reflexivity|].
  now destruct (str_eqb k0 k).
Qed.

Lemma merged_lookup (successful : list Result.t) :
  forall acc k,
    dict_get
      (fold_left
         (fun acc r =>
            match Result.content r with
            | PDict d => dict_update acc d
            | _ => acc
            end)
         successful acc) k
    = match lookup_last
              (flat_map (fun r => match Result.content r with
                                  | PDict d => d
                                  | _ => []
                                  end) successful) k with
      | Some v => Some v
      | None => dict_get acc k
      end.
Proof.
  unfold lookup_last.
  induction successful as [|r successful IH]; intros acc k; [reflexivity|].
  cbn [fold_left flat_map]. rewrite IH, rev_app_distr, dict_get_app.
  destruct (dict_get (rev (flat_map _ successful)) k); [reflexivity|].
  destruct (Result.content r); try reflexivity.
  apply dict_get_update.
Qed.

Lemma successful_items_filter results :
  flat_map (fun r => match Result.content r with
                     | PDict d => d
                     | _ => []
                     end)
    (filter (fun r => is_None (Result.error r)) results)
  = successful_items results.
Proof.
  unfold successful_items.
  induction results as [|r results IH]; [reflexivity|].
  cbn [filter flat_map].
  destruct (Result.error r); cbn [is_None flat_map]; now rewrite IH.
Qed.

(** X3. When every Result without error carries a dict, and there is
    such a Result, the aggregated content is one dict in which every
    key has the value written last for it, going through the Results in
    sequence order: on a collision the later Result wins. Results with
    an error contribute nothing. *)
Theorem aggregate_merges_dicts results :
  successful_are_dicts results ->
  (exists r, In r results /\ Result.error r = None) ->
  exists merged,
    aggregated (aggregate_results results) = PDict merged
    /\ forall key,
        dict_get merged key = lookup_last (successful_items results) key.
Proof.
  intros Hdicts [r0 [Hin0 Herr0]].
  unfold aggregate_results. cbn [aggregated].
  set (successful := filter (fun r => is_None (Result.error r)) results).
  assert (Hall : forall r, In r successful ->
                           exists d, Result.content r = PDict d).
  { intros r Hr. apply filter_In in Hr. destruct Hr as [Hin Hnone].
    apply Hdicts; [exact Hin|]. now destruct (Result.error r). }
  assert (Hnotstr :
           forallb (fun r => isinstance_str (Result.content r)) successful
           = false).
  { apply not_true_is_false. intros Hstr.
    rewrite forallb_forall in Hstr.
    assert (Hin : In r0 successful)
      by (apply filter_In; split; [exact Hin0|now rewrite Herr0]).
    specialize (Hstr r0 Hin). destruct (Hall r0 Hin) as [d Hd].
    rewrite Hd in Hstr. discriminate. }
  assert (Hdict :
           forallb (fun r => isinstance_dict (Result.content r)) successful
           = true).
  { apply forallb_forall. intros r Hr.
    destruct (Hall r Hr) as [d ->]. reflexivity. }
  rewrite Hnotstr, Hdict. eexists. split; [reflexivity|].
  intros key. rewrite merged_lookup. unfold successful.
  rewrite successful_items_filter.
  now destruct (lookup_last (successful_items results) key).
Qed.

(** X4. The counters and the error list of a reply add up over
    concatenation: aggregating [results1 ++ results2] counts what the
    two parts count together and lists the errors of the first part
    before those of the second. *)
Theorem aggregate_counts_append results1 results2 :
  let whole := aggregate_results (results1 ++ results2) in
  let part1 := aggregate_results results1 in
  let part2 := aggregate_results results2 in
  chunks_processed whole = chunks_processed part1 + chunks_processed part2
  /\ chunks_failed whole = chunks_failed part1 + chunks_failed part2
  /\ errors whole = errors part1 ++ errors part2.
Proof.
  cbn zeta. unfold aggregate_results.
  cbn [chunks_processed chunks_failed errors].
  rewrite !filter_app, !length_app, map_app. repeat split.
Qed.

End DictMerge.

(* ================================================================== *)
(** * Further properties: dispatch *)
(* ================================================================== *)

Section DispatchMore.

Import AgentManager.
Context {B : Builtins}.

Lemma built_task_model chunks query task :
  In task (build_tasks chunks query) -> _select_model task = lit "haiku".
Proof.
  intros Hin.
  pose proof (build_tasks_from_task_type chunks query 0) as Htypes.
  rewrite Forall_forall in Htypes.
  unfold _select_model. now rewrite (Htypes task Hin).
Qed.

(** X5. [process_chunks_sync] consults the worker only with the model
    tag ["haiku"] and the prompts of the tasks: two managers whose
    workers agree on these arguments return the same Results, whatever
    their [max_concurrent] and whether or not they were cleaned up. *)
Theorem sync_reads_worker_at_prompts
  self1 self2 llm1 llm2 sched chunks query :
  constructed self1 ->
  constructed self2 ->
  llm_query_fn self1 = Some llm1 ->
  llm_query_fn self2 = Some llm2 ->
  completes_each_once sched (length chunks) ->
  (forall task,
      In task (build_tasks chunks query) ->
      llm1 (_build_prompt task) (lit "haiku")
      = llm2 (_build_prompt task) (lit "haiku")) ->
  process_chunks_sync self1 sched chunks query
  = process_chunks_sync self2 sched chunks query.
Proof.
  intros Hself1 Hself2 Hllm1 Hllm2 Hsched Hagree.
  rewrite (sync_in_task_order self1 sched chunks query Hself1 Hsched).
  rewrite (sync_in_task_order self2 sched chunks query Hself2 Hsched).
  f_equal. apply map_ext_in. intros task Hin.
  unfold sync_result. rewrite !process_single_chunk_cases, Hllm1, Hllm2.
  rewrite (built_task_model chunks query task Hin).
  now rewrite (Hagree task Hin).
Qed.



(** X7. While the pool of the manager is live, [process_chunks_async]
    returns exactly the Results of [process_chunks_sync], for the same
    clock readings and any completion order. *)
Theorem async_agrees_with_sync self sched chunks query :
  constructed self ->
  executor_shutdown self = false ->
  completes_each_once sched (length chunks) ->
  process_chunks_async self (clock sched) chunks query
  = process_chunks_sync self sched chunks query.
Proof.
  intros Hself Hlive Hsched.
  rewrite (sync_in_task_order self sched chunks query Hself Hsched).
  rewrite (async_in_task_order self (clock sched) chunks query Hself).
  f_equal. apply map_ext. intros task.
  now rewrite async_result_cases, Hlive.
Qed.

Lemma refusals_aggregate (e : exc) (n : nat) :
  let reply := aggregate_results (repeat (dispatcher_failure e) n) in
  chunks_processed reply = 0
  /\ chunks_failed reply = n
  /\ aggregated reply = PStr []
  /\ errors reply = repeat ((-1)%Z, Some (str_of_exc e)) n.
Proof.
  cbn zeta. unfold aggregate_results.
  cbn [chunks_processed chunks_failed aggregated errors].
  assert (Hsucc : filter (fun r => is_None (Result.error r))
                    (repeat (dispatcher_failure e) n) = [])
    by (induction n; simpl; auto).
  assert (Hfail : filter (fun r => negb (is_None (Result.error r)))
                    (repeat (dispatcher_failure e) n)
                  = repeat (dispatcher_failure e) n)
    by (clear Hsucc; induction n as [|n IH]; simpl; [|rewrite IH];
        reflexivity).
  rewrite Hsucc, Hfail, repeat_length. repeat split.
  clear Hsucc Hfail.
  induction n as [|n IH]; simpl; [|rewrite IH]; reflexivity.
Qed.

(** X8. [cleanup()] shuts down the pool of the manager only.
    [process_chunks_sync], which creates a pool of its own, returns
    after [cleanup()] what it returned before. [process_chunks_async]
    returns one refusal per chunk, all alike, which
    [aggregate_results] counts as failed: nothing processed, empty
    aggregated text, one error entry with [chunk] -1 per chunk. *)
Theorem cleanup_effects self sched chunks query :
  constructed self ->
  let refusal :=
    Exc (lit "cannot schedule new futures after shutdown") in
  process_chunks_sync (cleanup self) sched chunks query
  = process_chunks_sync self sched chunks query
  /\ process_chunks_async (cleanup self) (clock sched) chunks query
     = Returned (repeat (dispatcher_failure refusal) (length chunks))
  /\ chunks_processed
       (aggregate_results
          (repeat (dispatcher_failure refusal) (length chunks))) = 0
  /\ chunks_failed
       (aggregate_results
          (repeat (dispatcher_failure refusal) (length chunks)))
     = length chunks
  /\ aggregated
       (aggregate_results
          (repeat (dispatcher_failure refusal) (length chunks)))
     = PStr []
  /\ errors
       (aggregate_results
          (repeat (dispatcher_failure refusal) (length chunks)))
     = repeat ((-1)%Z, Some (lit "cannot schedule new futures after shutdown"))
         (length chunks).
Proof.
  intros Hself refusal. split; [reflexivity|]. split.
  - rewrite (async_in_task_order (cleanup self) (clock sched) chunks query
               (constructed_cleanup self Hself)).
    f_equal. rewrite <- (build_tasks_length chunks query).
    apply map_constant. intros task.
    now rewrite async_result_cases.
  - apply (refusals_aggregate refusal (length chunks)).
Qed.

Lemma build_tasks_from_payloads chunks1 :
  forall chunks2 query start,
    Forall2 (fun chunk1 chunk2 =>
               slice (py_str (chunk_payload chunk1)) 0 10000
               = slice (py_str (chunk_payload chunk2)) 0 10000)
      chunks1 chunks2 ->
    map _build_prompt (build_tasks_from start chunks1 query)
    = map _build_prompt (build_tasks_from start chunks2 query)
    /\ map ChunkTask.id (build_tasks_from start chunks1 query)
       = map ChunkTask.id (build_tasks_from start chunks2 query).
Proof.
  induction chunks1 as [|c1 chunks1 IH]; intros chunks2 query start Hsame;
    inversion Hsame as [|? c2 ? chunks2' Hhead Htail]; subst;
    [now split|].
  destruct (IH chunks2' query (S start) Htail) as [Hprompts Hids].
  cbn [build_tasks_from map]. rewrite Hprompts, Hids.
  split; [|reflexivity]. f_equal.
  rewrite !build_prompt_parts. cbn [ChunkTask.content ChunkTask.query
                                       ChunkTask.id].
  now rewrite Hhead.
Qed.

Lemma sync_results_from_prompts self llm sched tasks1 :
  forall tasks2,
    llm_query_fn self = Some llm ->
    Forall (fun task => _select_model task = lit "haiku") tasks1 ->
    Forall (fun task => _select_model task = lit "haiku") tasks2 ->
    map _build_prompt tasks1 = map _build_prompt tasks2 ->
    map ChunkTask.id tasks1 = map ChunkTask.id tasks2 ->
    map (sync_result self sched) tasks1 = map (sync_result self sched) tasks2.
Proof.
  induction tasks1 as [|t1 tasks1 IH]; intros [|t2 tasks2] Hllm H1 H2 Hp Hi;
    try discriminate; [reflexivity|].
  inversion H1 as [|? ? Hm1 H1']; inversion H2 as [|? ? Hm2 H2']; subst.
  cbn [map] in *. injection Hp as Hp0 Hp. injection Hi as Hi0 Hi.
  rewrite (IH tasks2 Hllm H1' H2' Hp Hi). f_equal.
  unfold sync_result. rewrite !process_single_chunk_cases, Hllm.
  now rewrite Hm1, Hm2, Hp0, Hi0.
Qed.

(** X9. With a worker configured, what lies beyond the first 10 000
    characters of a payload has no influence: two chunk sequences whose
    payloads agree, chunk by chunk, on the first 10 000 characters of
    their [str()] yield the same Results. *)
Theorem payload_tail_is_ignored self llm sched chunks1 chunks2 query :
  constructed self ->
  llm_query_fn self = Some llm ->
  completes_each_once sched (length chunks1) ->
  Forall2 (fun chunk1 chunk2 =>
             slice (py_str (chunk_payload chunk1)) 0 10000
             = slice (py_str (chunk_payload chunk2)) 0 10000)
    chunks1 chunks2 ->
  process_chunks_sync self sched chunks1 query
  = process_chunks_sync self sched chunks2 query.
Proof.
  intros Hself Hllm Hsched Hsame.
  assert (Hlen : length chunks1 = length chunks2)
    by (eapply Forall2_length; eassumption).
  rewrite (sync_in_task_order self sched chunks1 query Hself Hsched).
  rewrite (sync_in_task_order self sched chunks2 query Hself)
    by (unfold completes_each_once in *; now rewrite <- Hlen).
  f_equal.
  destruct (build_tasks_from_payloads chunks1 chunks2 query 0 Hsame)
    as [Hprompts Hids].
  apply (sync_results_from_prompts self llm); try assumption;
    apply Forall_forall; intros task Hin;
    eapply built_task_model; eassumption.
Qed.

(** X10. [if task.query:] treats an empty query like no query. A task
    that dispatch builds for the query [""] gets the prompt that asks
    for a summary, the one of a task without query; for a query that is
    not empty the prompt opens with the question and quotes the query
    in full. *)
Theorem empty_query_is_no_query chunks query :
  Forall (fun task =>
            (query = [] ->
             _build_prompt task
             = _build_prompt
                 {| ChunkTask.id := ChunkTask.id task;
                    ChunkTask.content := ChunkTask.content task;
                    ChunkTask.task_type := ChunkTask.task_type task;
                    ChunkTask.query := None;
                    ChunkTask.metadata := ChunkTask.metadata task |}
             /\ startswith (lit "Extract key information from this chunk:")
                  (_build_prompt task) = true)
            /\ (query <> [] ->
                exists rest,
                  _build_prompt task
                  = lit "Process this chunk of data to answer the following query:"
                    ++ nl ++ nl ++ lit "Query: " ++ query ++ nl ++ nl
                    ++ lit "Chunk " ++ rest))
    (build_tasks chunks query).
Proof.
  unfold build_tasks. generalize 0.
  induction chunks as [|chunk chunks IH]; intros start;
    cbn [build_tasks_from]; constructor; [|apply IH].
  split.
  - intros ->. split; reflexivity.
  - intros Hq. destruct query as [|c q]; [contradiction|].
    eexists. unfold _build_prompt. cbn [ChunkTask.query truthy_query].
    reflexivity.
Qed.

End DispatchMore.

(* ================================================================== *)
(** * Further properties: the token estimator *)
(* ================================================================== *)

Section EstimatorMore.

Import TokenEfficiencyAnalyzer.

Lemma startswith_app prefix :
  forall s t, startswith prefix s = true -> startswith prefix (s ++ t) = true.
Proof.
  induction prefix as [|x prefix IH]; intros s t Hs; [reflexivity|].
  destruct s as [|y s]; [discriminate|]. cbn [app startswith] in *.
  apply andb_true_iff in Hs. destruct Hs as [-> Hs]. now apply IH.
Qed.

Lemma contains_app_r needle hay t :
  contains needle hay = true -> contains needle (hay ++ t) = true.
Proof.
  induction hay as [|c hay IH]; intros Hc.
  - cbn [contains] in Hc. rewrite orb_false_r in Hc.
    destruct needle; [|discriminate]. now destruct t.
  - cbn [app]. cbn [contains] in *.
    apply orb_true_iff in Hc. apply orb_true_iff.
    destruct Hc as [Hc|Hc]; [left|right; now apply IH].
    now apply (startswith_app needle (c :: hay) t).
Qed.

Lemma contains_app_l needle before hay :
  contains needle hay = true -> contains needle (before ++ hay) = true.
Proof.
  intros Hc. induction before as [|c before IH]; [exact Hc|].
  cbn [app contains]. rewrite IH. apply orb_true_r.
Qed.

(** X11. Text around a blob never hides its markers: a blob that
    [_looks_like_code] accepts is still accepted inside any larger
    text. *)
Theorem looks_like_code_in_context before content after :
  _looks_like_code content = true ->
  _looks_like_code (before ++ content ++ after) = true.
Proof.
  rewrite !looks_like_code_iff.
  intros [a [b [c [Hab [Hac [Hbc [Ia [Ib [Ic [Ca [Cb Cc]]]]]]]]]]].
  exists a, b, c. repeat split; try assumption;
    now apply contains_app_l, contains_app_r.
Qed.

Lemma split_from_spaces s :
  Forall (fun c => isspace c = true) s -> split_from [] s = [].
Proof.
  induction 1 as [|c s Hc _ IH]; [reflexivity|].
  cbn [split_from]. now rewrite Hc.
Qed.

(** X12. A blob made of whitespace only, the empty blob included, has
    the estimate 0. *)
Theorem blank_content_has_no_tokens content :
  Forall (fun c => isspace c = true) content ->
  _estimate_tokens_content content = Returned 0%Z.
Proof.
  intros Hblank. unfold _estimate_tokens_content, split.
  rewrite (split_from_spaces content Hblank).
  destruct (_looks_like_code content); vm_compute; reflexivity.
Qed.

Lemma split_from_length s :
  forall word,
    length (split_from word s)
    <= length s + match word with [] => 0 | _ :: _ => 1 end.
Proof.
  induction s as [|c s IH]; intros word.
  - destruct word; simpl; lia.
  - cbn [split_from length]. destruct (isspace c).
    + destruct word; [specialize (IH []); simpl in *; lia|].
      specialize (IH []). cbn [length]. simpl in IH. lia.
    + specialize (IH (word ++ [c])).
      destruct (word ++ [c]) eqn:E; [now destruct word|].
      destruct word; lia.
Qed.

Lemma split_length s : length (split s) <= length s.
Proof. pose proof (split_from_length s []). unfold split. simpl in *. lia. Qed.

Lemma decode_utf8_ignore_length n :
  forall bs, length bs <= n -> length (decode_utf8_ignore bs) <= length bs.
Proof.
  induction n as [|n IH]; intros bs Hlen.
  - destruct bs; [simpl; lia|simpl in Hlen; lia].
  - destruct bs as [|b0 rest]; [simpl; lia|].
    cbn [length] in Hlen.
    assert (H0 : length (decode_utf8_ignore rest) <= length rest)
      by (apply IH; lia).
    cbn [decode_utf8_ignore].
    destruct (b0 <? 128)%N; [cbn [length]; lia|].
    destruct rest as [|b1 rest1]; [simpl; lia|].
    cbn [length] in *.
    assert (H1 : length (decode_utf8_ignore rest1) <= length rest1)
      by (apply IH; lia).
    destruct ((194 <=? b0) && (b0 <=? 223) && is_continuation b1)%N;
      [cbn [length]; lia|].
    destruct rest1 as [|b2 rest2]; [cbn [length] in *; lia|].
    cbn [length] in *.
    assert (H2 : length (decode_utf8_ignore rest2) <= length rest2)
      by (apply IH; lia).
    match goal with
    | |- context [if ?c then _ else _] => destruct c
    end; [cbn [length]; lia|].
    destruct rest2 as [|b3 rest3]; [cbn [length] in *; lia|].
    cbn [length] in *.
    assert (H3 : length (decode_utf8_ignore rest3) <= length rest3)
      by (apply IH; lia).
    match goal with
    | |- context [if ?c then _ else _] => destruct c
    end; cbn [length]; lia.
Qed.

Lemma estimate_returns content :
  (Z.of_nat (length (split content)) < 2 ^ 63)%Z ->
  exists tokens,
    _estimate_tokens_content content = Returned tokens /\ (0 <= tokens)%Z.
Proof.
  intros Hwords. unfold _estimate_tokens_content.
  destruct factors_small as [_ [_ [H14 H10]]].
  destruct (_looks_like_code content).
  - exact (int_of_small_float 70 _
             (estimated_tokens_small _ 1.4%float Hwords H14)).
  - exact (int_of_small_float 70 _
             (estimated_tokens_small _ 1.0%float Hwords H10)).
Qed.

(** X13. On a file system whose files are shorter than [2^63] bytes,
    [_estimate_tokens_file] raises exactly for a path that does not
    exist (then [stat] in the handler fails as well); for every
    existing path, readable or not, it returns a non-negative
    integer. *)
Theorem estimate_file_raises_only_when_missing fs file_path :
  (forall data,
      fs file_path = Some (Regular data) ->
      (Z.of_nat (length data) < 2 ^ 63)%Z) ->
  ((exists e, _estimate_tokens_file fs file_path = Raised e)
   <-> fs file_path = None)
  /\ (fs file_path <> None ->
      exists tokens,
        _estimate_tokens_file fs file_path = Returned tokens
        /\ (0 <= tokens)%Z).
Proof.
  intros Hsize.
  assert (Hexists : fs file_path <> None ->
                    exists tokens,
                      _estimate_tokens_file fs file_path = Returned tokens
                      /\ (0 <= tokens)%Z).
  { intros Hnode. unfold _estimate_tokens_file, read_text, stat_size.
    destruct (fs file_path) as [[data|st_size]|] eqn:E; [| |contradiction].
    - cbn [bind]. rewrite universal_newlines_estimate.
      destruct (estimate_returns (decode_utf8_ignore (map Byte.to_N data)))
        as [tokens [Hrun Hpos]].
      + pose proof (split_length (decode_utf8_ignore (map Byte.to_N data))).
        pose proof (decode_utf8_ignore_length _ (map Byte.to_N data)
                      (Nat.le_refl _)).
        rewrite length_map in *. specialize (Hsize data eq_refl). lia.
      + rewrite Hrun. exists tokens. now split.
    - cbn. eexists. split; [reflexivity|]. apply Z.div_pos; lia. }
  split; [|exact Hexists]. split.
  - intros [e Hraise].
    destruct (fs file_path) eqn:E; [|reflexivity].
    destruct Hexists as [tokens [Hrun _]]; [discriminate|].
    rewrite Hrun in Hraise. discriminate.
  - intros Hnone. unfold _estimate_tokens_file, read_text, stat_size.
    rewrite Hnone. cbn. eauto.
Qed.

End EstimatorMore.

(* ================================================================== *)
(** * Further properties: cutting a text into chunks *)
(* ================================================================== *)

Section Windows.

Import TokenEfficiencyAnalyzer.
Context {A : Type}.

Lemma windows_count_bounds (size len : nat) :
  0 < size ->
  len <= (len + size - 1) / size * size
  /\ ((len + size - 1) / size = 0
      \/ ((len + size - 1) / size - 1) * size < len).
Proof.
  intros Hsize.
  pose proof (Nat.div_mod_eq (len + size - 1) size) as Hdiv.
  pose proof (Nat.mod_upper_bound (len + size - 1) size ltac:(lia)) as Hmod.
  split; [nia|].
  destruct ((len + size - 1) / size) as [|c]; [now left|right]. nia.
Qed.

Lemma windows_concat_all (size : nat) (l : list A) :
  0 < size -> concat (windows size l) = l.
Proof.
  intros Hsize. unfold windows.
  apply windows_concat; [exact Hsize|].
  apply (windows_count_bounds size (length l) Hsize).
Qed.

Lemma windows_lengths (size : nat) (l : list A) :
  0 < size ->
  Forall (fun w => 0 < length w <= size) (windows size l).
Proof.
  intros Hsize. unfold windows.
  destruct (windows_count_bounds size (length l) Hsize) as [_ Hlast].
  rewrite Forall_map, Forall_forall. intros k Hk. apply in_seq in Hk.
  rewrite length_firstn, length_skipn.
  assert (k * size <= ((length l + size - 1) / size - 1) * size)
    by (apply Nat.mul_le_mono_r; lia).
  lia.
Qed.

Lemma windows_length (size : nat) (l : list A) :
  length (windows size l) = (length l + size - 1) / size.
Proof. unfold windows. now rewrite length_map, length_seq. Qed.

Lemma windows_step (size : nat) (l : list A) :
  0 < size ->
  l <> [] ->
  windows size l = firstn size l :: windows size (skipn size l).
Proof.
  intros Hsize Hl. unfold windows.
  assert (Hlen : 0 < length l) by (destruct l; [contradiction|simpl; lia]).
  assert (Hcount : (length l + size - 1) / size
                   = S ((length (skipn size l) + size - 1) / size)).
  { rewrite length_skipn.
    destruct (Nat.le_gt_cases size (length l)) as [Hge|Hlt].
    - replace (length l + size - 1) with (length l - size + size - 1 + 1 * size)
        by lia.
      rewrite Nat.div_add by lia. lia.
    - replace (length l - size) with 0 by lia.
      rewrite (Nat.div_small (0 + size - 1)) by lia.
      symmetry. apply Nat.div_unique with (length l - 1); lia. }
  rewrite Hcount. cbn [seq map]. f_equal.
  rewrite <- seq_shift, map_map. apply map_ext. intros k.
  rewrite skipn_skipn. do 2 f_equal. lia.
Qed.

Lemma firstn_add_skipn (a b : nat) :
  forall l : list A, firstn (a + b) l = firstn a l ++ firstn b (skipn a l).
Proof.
  induction a as [|a IH]; intros l; [reflexivity|].
  destruct l as [|x l]; [now rewrite !firstn_nil|].
  cbn [Nat.add firstn skipn app]. now rewrite IH.
Qed.

(** The first [m] windows hold the first [m * size] elements. *)
Lemma firstn_windows_concat (size m : nat) :
  0 < size ->
  forall l : list A,
    m * size <= length l ->
    concat (firstn m (windows size l)) = firstn (m * size) l
    /\ length (firstn m (windows size l)) = m
    /\ Forall (fun w => length w = size) (firstn m (windows size l)).
Proof.
  intros Hsize. induction m as [|m IH]; intros l Hlen.
  - cbn. repeat split. constructor.
  - assert (Hl : l <> []) by (destruct l; [simpl in Hlen; lia|discriminate]).
    rewrite (windows_step size l Hsize Hl). cbn [firstn concat length].
    destruct (IH (skipn size l)) as [Hcat [Hcount Hfull]];
      [rewrite length_skipn; simpl in Hlen; lia|].
    rewrite Hcat, Hcount. repeat split.
    + cbn [Nat.mul]. now rewrite firstn_add_skipn.
    + constructor; [|exact Hfull].
      rewrite length_firstn. simpl in Hlen. lia.
Qed.

Lemma range_slices (l : list A) (step : Z) :
  (0 < step)%Z ->
  exists starts,
    range 0 (Z.of_nat (length l)) step = Returned starts
    /\ map (fun i => slice l i (i + step)%Z) starts
       = windows (Z.to_nat step) l.
Proof.
  intros Hstep. unfold range.
  destruct (step =? 0)%Z eqn:E0; [apply Z.eqb_eq in E0; lia|].
  destruct (0 <? step)%Z eqn:E1; [|apply Z.ltb_ge in E1; lia].
  eexists. split; [reflexivity|].
  rewrite map_map. unfold windows.
  replace (Z.to_nat ((Z.of_nat (length l) - 0 + step - 1) / step))
    with ((length l + Z.to_nat step - 1) / Z.to_nat step).
  - apply map_ext. intros k.
    rewrite <- (slice_window l (k * Z.to_nat step) (Z.to_nat step)).
    f_equal; lia.
  - apply Nat2Z.inj.
    rewrite Nat2Z.inj_div, !Z2Nat.id by (try apply Z.div_pos; lia).
    f_equal; lia.
Qed.

End Windows.

Section FallbackChunks.

Import AgentManager TokenEfficiencyAnalyzer.

Lemma append_chunks_numbered content chunk_size starts :
  forall chunks,
    append_chunks content chunk_size starts chunks
    = chunks
      ++ numbered_chunks (length chunks)
           (map (fun i => slice content i (i + chunk_size)%Z) starts).
Proof.
  induction starts as [|i starts IH]; intros chunks;
    cbn [append_chunks map numbered_chunks].
  - now rewrite app_nil_r.
  - rewrite IH, length_app, <- app_assoc. cbn [length app].
    now rewrite Nat.add_1_r.
Qed.

Lemma numbered_chunks_payloads texts :
  forall first,
    map chunk_payload (numbered_chunks first texts) = map PStr texts.
Proof.
  induction texts as [|text texts IH]; intros first; [reflexivity|].
  cbn [numbered_chunks map]. now rewrite IH.
Qed.

Lemma numbered_chunks_numbers texts :
  forall first,
    map chunk_number (numbered_chunks first texts)
    = map (fun k => Some (Z.of_nat k)) (seq first (length texts)).
Proof.
  induction texts as [|text texts IH]; intros first; [reflexivity|].
  cbn [numbered_chunks map length seq]. now rewrite IH.
Qed.

Lemma numbered_chunks_length texts :
  forall first, length (numbered_chunks first texts) = length texts.
Proof.
  induction texts as [|text texts IH]; intros first; [reflexivity|].
  cbn [numbered_chunks length]. now rewrite IH.
Qed.

(** X14. For a file that can be read, [_create_fallback_chunks] returns
    chunks whose ['content'] texts, glued in order, are the text of the
    file; each text has between 1 and 50 000 characters, the ['id']s
    count 0, 1, 2, ..., and an empty file gives no chunk at all. For a
    file that cannot be read it returns the one chunk
    [{'content': 'fallback', 'id': 0}]. It never raises. *)
Theorem fallback_chunks_cover (read : text_reader) (file_path : str) :
  (forall content,
      read file_path = Returned content ->
      exists texts,
        _create_fallback_chunks read file_path
        = Returned (numbered_chunks 0 texts)
        /\ concat texts = content
        /\ Forall (fun text => 0 < length text <= Z.to_nat 50000) texts
        /\ map chunk_payload (numbered_chunks 0 texts) = map PStr texts
        /\ map chunk_number (numbered_chunks 0 texts)
           = map (fun k => Some (Z.of_nat k)) (seq 0 (length texts))
        /\ (content = [] -> texts = []))
  /\ (forall e,
         read file_path = Raised e ->
         _create_fallback_chunks read file_path = Returned [fallback_chunk]).
Proof.
  split.
  - intros content Hread.
    exists (windows (Z.to_nat 50000) content).
    unfold _create_fallback_chunks. rewrite Hread. cbn [bind].
    destruct (range_slices content 50000 ltac:(lia)) as [starts [-> Hslices]].
    cbn [bind try_except].
    rewrite append_chunks_numbered, Hslices. cbn [app length].
    split; [reflexivity|].
    split; [apply windows_concat_all; lia|].
    split; [apply windows_lengths; lia|].
    split; [apply numbered_chunks_payloads|].
    split; [apply numbered_chunks_numbers|].
    intros ->. unfold windows. cbn [length].
    now rewrite Nat.div_small by lia.
  - intros e Hread. unfold _create_fallback_chunks. now rewrite Hread.
Qed.

End FallbackChunks.

Section ParallelChunks.

Import AgentManager RLMBenchmark.

Lemma chunk_until_numbered content chunk_size max_concurrent starts :
  forall chunks,
    (Z.of_nat (length chunks) < max_concurrent)%Z ->
    chunk_until content chunk_size max_concurrent starts chunks
    = chunks
      ++ numbered_chunks (length chunks)
           (firstn (Z.to_nat max_concurrent - length chunks)
              (map (fun i => slice content i (i + chunk_size)%Z) starts)).
Proof.
  induction starts as [|i starts IH]; intros chunks Hroom;
    cbn [chunk_until map].
  - now rewrite firstn_nil, app_nil_r.
  - replace (Z.to_nat max_concurrent - length chunks)
      with (S (Z.to_nat max_concurrent - S (length chunks))) by lia.
    cbn [firstn numbered_chunks]. rewrite length_app. cbn [length].
    rewrite Nat.add_1_r.
    destruct (max_concurrent <=? Z.of_nat (S (length chunks)))%Z eqn:E.
    + apply Z.leb_le in E.
      replace (Z.to_nat max_concurrent - S (length chunks)) with 0 by lia.
      reflexivity.
    + apply Z.leb_gt in E.
      rewrite IH by (rewrite length_app; cbn [length]; lia).
      rewrite length_app, <- app_assoc. cbn [length app].
      now rewrite Nat.add_1_r.
Qed.

Lemma parallel_numbered_payloads texts :
  forall first,
    map chunk_payload (numbered_chunks first texts) = map PStr texts.
Proof.
  induction texts as [|text texts IH]; intros first; [reflexivity|].
  cbn [numbered_chunks map]. now rewrite IH.
Qed.

Lemma parallel_numbered_length texts :
  forall first, length (numbered_chunks first texts) = length texts.
Proof.
  induction texts as [|text texts IH]; intros first; [reflexivity|].
  cbn [numbered_chunks length]. now rewrite IH.
Qed.

Lemma parallel_chunks_windows read file_path max_concurrent content :
  read file_path = Returned content ->
  (0 < max_concurrent <= Z.of_nat (length content))%Z ->
  parallel_chunks read file_path max_concurrent
  = Returned
      (numbered_chunks 0
         (firstn (Z.to_nat max_concurrent)
            (TokenEfficiencyAnalyzer.windows
               (length content / Z.to_nat max_concurrent) content))).
Proof.
  intros Hread [Hpos Hlen]. unfold parallel_chunks. rewrite Hread.
  cbn [bind].
  assert (Hsize : (0 < Z.of_nat (length content) / max_concurrent)%Z)
    by (apply Z.div_str_pos; lia).
  destruct (range_slices content _ Hsize) as [starts [-> Hslices]].
  cbn [bind try_except].
  rewrite chunk_until_numbered by (cbn [length]; lia).
  rewrite Hslices. cbn [app length]. rewrite Nat.sub_0_r.
  do 3 f_equal.
  rewrite <- (Z2Nat.id max_concurrent) at 1 by lia.
  now rewrite <- Nat2Z.inj_div, Nat2Z.id.
Qed.

(** X15. [_process_with_parallel] cuts a text of at least
    [max_concurrent] characters into exactly [max_concurrent] chunks of
    [len(content) // max_concurrent] characters each, numbered from 0.
    Glued together they are the beginning of the text: the last
    [len(content) % max_concurrent] characters are in no chunk. *)
Theorem parallel_chunks_cut read file_path max_concurrent content :
  read file_path = Returned content ->
  (0 < max_concurrent <= Z.of_nat (length content))%Z ->
  exists texts,
    parallel_chunks read file_path max_concurrent
    = Returned (numbered_chunks 0 texts)
    /\ length texts = Z.to_nat max_concurrent
    /\ Forall (fun text =>
                 length text = length content / Z.to_nat max_concurrent)
         texts
    /\ map chunk_payload (numbered_chunks 0 texts) = map PStr texts
    /\ content
       = concat texts
         ++ skipn (length content
                   - length content mod Z.to_nat max_concurrent) content
    /\ length (concat texts)
       = length content - length content mod Z.to_nat max_concurrent.
Proof.
  intros Hread Hbounds.
  rewrite (parallel_chunks_windows read file_path max_concurrent content
             Hread Hbounds).
  set (count := Z.to_nat max_concurrent).
  set (size := length content / count).
  assert (Hcount : 0 < count) by (unfold count; lia).
  assert (Hsize : 0 < size)
    by (unfold size; apply Nat.div_str_pos; unfold count; lia).
  assert (Hcover : count * size = length content - length content mod count).
  { pose proof (Nat.div_mod_eq (length content) count). unfold size. lia. }
  destruct (firstn_windows_concat size count Hsize content)
    as [Hcat [Hlen Hfull]]; [lia|].
  eexists. split; [reflexivity|].
  split; [exact Hlen|]. split; [exact Hfull|].
  split; [apply parallel_numbered_payloads|].
  rewrite Hcat, Hcover. split.
  - symmetry. apply firstn_skipn.
  - rewrite length_firstn. lia.
Qed.

(** A chunk size of 0 makes [range] raise inside the [try]. *)
Lemma parallel_chunks_short read file_path max_concurrent content :
  read file_path = Returned content ->
  (0 <= Z.of_nat (length content) < max_concurrent)%Z ->
  parallel_chunks read file_path max_concurrent = Returned [fallback_chunk].
Proof.
  intros Hread Hshort. unfold parallel_chunks. rewrite Hread.
  cbn [bind]. rewrite Z.div_small by exact Hshort. reflexivity.
Qed.

Lemma parallel_chunks_unreadable read file_path max_concurrent e :
  read file_path = Raised e ->
  parallel_chunks read file_path max_concurrent = Returned [fallback_chunk].
Proof. intros Hread. unfold parallel_chunks. now rewrite Hread. Qed.

(** X16. A file with fewer characters than [max_concurrent], the empty
    file included, and a file that cannot be read are replaced by the
    one chunk [{'id': 0, 'content': 'fallback'}]: the chunk size is then
    0 and [range] refuses it. *)
Theorem parallel_chunks_fallback read file_path max_concurrent :
  (0 < max_concurrent)%Z ->
  (forall content,
      read file_path = Returned content ->
      (Z.of_nat (length content) < max_concurrent)%Z) ->
  parallel_chunks read file_path max_concurrent = Returned [fallback_chunk].
Proof.
  intros Hpos Hshort.
  destruct (read file_path) as [content|e] eqn:Hread.
  - apply (parallel_chunks_short read file_path max_concurrent content Hread).
    specialize (Hshort content eq_refl). lia.
  - apply (parallel_chunks_unreadable read file_path max_concurrent e Hread).
Qed.

End ParallelChunks.

Section ParallelStrategy.

Import AgentManager RLMBenchmark.
Context {B : Builtins}.

Lemma all_successful_counts results :
  Forall (fun r => Result.error r = None) results ->
  count_without_error results = length results
  /\ count_with_error results = 0
  /\ error_entries results = [].
Proof.
  induction 1 as [|r results Hr _ [IH1 [IH2 IH3]]]; simpl; [now repeat split|].
  rewrite Hr. now rewrite IH1, IH2, IH3.
Qed.

Lemma no_worker_results_successful self sched tasks :
  llm_query_fn self = None ->
  Forall (fun r => Result.error r = None) (map (sync_result self sched) tasks).
Proof.
  intros Hnone. rewrite Forall_map, Forall_forall. intros task _.
  unfold sync_result. now rewrite process_single_chunk_cases, Hnone.
Qed.

(** X17. For a positive [max_concurrent], [_process_with_parallel]
    returns, whatever the file: the reply counts as processed the
    chunks it made ([max_concurrent] of them for a readable text of at
    least that many characters, else the one fallback chunk), and the
    aggregated result inside agrees, with no failure and no error
    entry. For a [max_concurrent] that is not positive it raises the
    error of the pool constructor before it reads the file. *)
Theorem process_with_parallel_reply read sched file_path max_concurrent :
  let made :=
    match read file_path with
    | Returned content =>
        if (max_concurrent <=? Z.of_nat (length content))%Z
        then Z.to_nat max_concurrent
        else 1
    | Raised _ => 1
    end in
  completes_each_once sched made ->
  ((0 < max_concurrent)%Z ->
   exists reply,
     _process_with_parallel read sched file_path max_concurrent
     = Returned reply
     /\ type reply = lit "rlm_parallel"
     /\ strategy reply = lit "parallel"
     /\ chunks_processed reply = made
     /\ AgentManager.chunks_processed (result reply) = made
     /\ AgentManager.chunks_failed (result reply) = 0
     /\ AgentManager.errors (result reply) = [])
  /\ ((max_concurrent <= 0)%Z ->
      _process_with_parallel read sched file_path max_concurrent
      = Raised (Exc (lit "max_workers must be greater than 0"))).
Proof.
  intros made Hsched. split.
  - intros Hpos.
    assert (Hchunks : exists chunks,
               parallel_chunks read file_path max_concurrent
               = Returned chunks
               /\ length chunks = made).
    { unfold made. destruct (read file_path) as [content|e] eqn:Hread.
      - destruct (max_concurrent <=? Z.of_nat (length content))%Z eqn:E.
        + apply Z.leb_le in E.
          rewrite (parallel_chunks_windows read file_path max_concurrent
                     content Hread (conj Hpos E)).
          eexists. split; [reflexivity|].
          rewrite parallel_numbered_length.
          assert (Hsize : 0 < length content / Z.to_nat max_concurrent)
            by (apply Nat.div_str_pos; lia).
          apply (firstn_windows_concat _ (Z.to_nat max_concurrent) Hsize).
          pose proof (Nat.div_mod_eq (length content)
                        (Z.to_nat max_concurrent)).
          lia.
        + apply Z.leb_gt in E. exists [fallback_chunk].
          split; [|reflexivity].
          apply (parallel_chunks_short read file_path max_concurrent
                   content Hread).
          lia.
      - exists [fallback_chunk]. split; [|reflexivity].
        apply (parallel_chunks_unreadable read file_path max_concurrent
                 e Hread). }
    destruct Hchunks as [chunks [Hcut Hlen]].
    unfold _process_with_parallel, __init__, ThreadPoolExecutor.
    destruct (max_concurrent <=? 0)%Z eqn:E;
      [apply Z.leb_le in E; lia|].
    cbn [bind]. rewrite Hcut. cbn [bind].
    set (manager := {| max_concurrent := max_concurrent;
                       llm_query_fn := None;
                       executor_shutdown := false |}).
    assert (Hmanager : constructed manager).
    { apply (constructed_init max_concurrent None).
      unfold __init__, ThreadPoolExecutor. now rewrite E. }
    rewrite (sync_in_task_order manager sched chunks (lit "Analyze content")
               Hmanager) by now rewrite Hlen.
    cbn [bind]. eexists. split; [reflexivity|].
    cbn [type strategy chunks_processed result].
    unfold aggregate_results.
    cbn [AgentManager.chunks_processed AgentManager.chunks_failed
           AgentManager.errors].
    rewrite successful_count, failed_count, failed_entries.
    destruct (all_successful_counts
                (map (sync_result manager sched)
                   (build_tasks chunks (lit "Analyze content"))))
      as [Hok [Hfailed Hentries]];
      [now apply no_worker_results_successful|].
    rewrite Hok, Hfailed, Hentries, length_map, build_tasks_length.
    now repeat split.
  - intros Hneg. unfold _process_with_parallel, __init__, ThreadPoolExecutor.
    destruct (max_concurrent <=? 0)%Z eqn:E; [reflexivity|].
    apply Z.leb_gt in E. lia.
Qed.

End ParallelStrategy.

Section SuccessfulCalls.

Import AgentManager.
Context {B : Builtins}.


End SuccessfulCalls.

(* ================================================================== *)
(** * Further properties: exceptions outside [Exception] *)
(* ================================================================== *)

Section Escapes.

Import AgentManager.
Context {B : Builtins}.

Lemma any_constructed_max_concurrent self :
  AnyWorker.constructed self -> (0 < AnyWorker.max_concurrent self)%Z.
Proof.
  induction 1 as [mc llm self Hinit|self _ IH]; [|exact IH].
  unfold AnyWorker.__init__, ThreadPoolExecutor in Hinit.
  destruct (mc <=? 0)%Z eqn:E; [discriminate|].
  apply Z.leb_gt in E. cbn [bind] in Hinit.
  injection Hinit as <-. exact E.
Qed.

Lemma collected_after_escape (futures : list (ending Result.t)) :
  fold_left
    (fun collected future =>
       results <~ collected ;;
       except_Exception
         (result <~ future ;;
          Ends (Returned (results ++ [result])))
         (fun e => Ends (Returned (results ++ [dispatcher_failure e]))))
    futures Escapes
  = Escapes.
Proof. induction futures as [|future futures IH]; [reflexivity|exact IH]. Qed.

(** The loop over [as_completed] ends at the first future that holds an
    exception outside [Exception]. *)
Lemma collected_escapes (futures : list (ending Result.t)) :
  In Escapes futures ->
  forall acc,
    fold_left
      (fun collected future =>
         results <~ collected ;;
         except_Exception
           (result <~ future ;;
            Ends (Returned (results ++ [result])))
           (fun e => Ends (Returned (results ++ [dispatcher_failure e]))))
      futures (Ends (Returned acc))
    = Escapes.
Proof.
  induction futures as [|future futures IH]; intros Hin acc; [contradiction|].
  cbn [fold_left ending_bind].
  destruct future as [[result|e]|]; cbn [ending_bind except_Exception].
  - apply IH. now destruct Hin.
  - apply IH. now destruct Hin.
  - apply collected_after_escape.
Qed.

Lemma gather_escapes {X} (awaited : list (ending X)) :
  In Escapes awaited -> AnyWorker.gather awaited = Escapes.
Proof.
  induction awaited as [|a awaited IH]; intros Hin; [contradiction|].
  destruct a as [o|]; [|reflexivity].
  cbn [AnyWorker.gather]. rewrite IH; [reflexivity|].
  now destruct Hin.
Qed.

Lemma gather_returns_or_escapes {X} (awaited : list (ending X)) :
  AnyWorker.gather awaited = Escapes
  \/ exists outcomes, AnyWorker.gather awaited = Ends (Returned outcomes).
Proof.
  induction awaited as [|a awaited IH]; [right; now eexists|].
  destruct a as [o|]; [|now left].
  cbn [AnyWorker.gather].
  destruct IH as [->|[outcomes ->]]; [now left|right; now eexists].
Qed.

Lemma gathered_after_escape self clock (batches : list (list ChunkTask.t)) :
  fold_left
    (fun gathered batch =>
       tasks <~ gathered ;;
       batch_results <~
         AnyWorker.gather
           (map (AnyWorker._process_chunk_async self clock) batch) ;;
       Ends (Returned
               (fold_left
                  (fun tasks result =>
                     match result with
                     | Raised e => tasks ++ [dispatcher_failure e]
                     | Returned r => tasks ++ [r]
                     end)
                  batch_results tasks)))
    batches Escapes
  = Escapes.
Proof. induction batches as [|batch batches IH]; [reflexivity|exact IH]. Qed.

(** The batch in which a task ends with an exception outside
    [Exception] is the last one that runs. *)
Lemma gathered_escapes self clock (batches : list (list ChunkTask.t)) task :
  In task (concat batches) ->
  AnyWorker._process_chunk_async self clock task = Escapes ->
  forall acc,
    fold_left
      (fun gathered batch =>
         tasks <~ gathered ;;
         batch_results <~
           AnyWorker.gather
             (map (AnyWorker._process_chunk_async self clock) batch) ;;
         Ends (Returned
                 (fold_left
                    (fun tasks result =>
                       match result with
                       | Raised e => tasks ++ [dispatcher_failure e]
                       | Returned r => tasks ++ [r]
                       end)
                    batch_results tasks)))
      batches (Ends (Returned acc))
    = Escapes.
Proof.
  intros Hin Hescapes.
  induction batches as [|batch batches IH]; intros acc; [contradiction|].
  cbn [concat] in Hin. cbn [fold_left ending_bind].
  destruct (gather_returns_or_escapes
              (map (AnyWorker._process_chunk_async self clock) batch))
    as [Hstop|[outcomes Hgo]].
  - rewrite Hstop. apply gathered_after_escape.
  - rewrite Hgo. cbn [ending_bind]. apply IH.
    apply in_app_or in Hin. destruct Hin as [Hin|Hin]; [|exact Hin].
    exfalso.
    rewrite gather_escapes in Hgo; [discriminate|].
    rewrite <- Hescapes. now apply in_map.
Qed.

(** X19. No exception outside [Exception] is folded into a Result. If
    the worker call of one task ends with a [SystemExit] or a
    [KeyboardInterrupt], [process_chunks_sync] ends with such an
    exception, whatever the other tasks do and in whatever order the
    futures complete, and so does [process_chunks_async] while the pool
    of the manager is live. After [cleanup()] the worker is not called:
    [process_chunks_async] returns one refusal per chunk. *)
Theorem escaping_call_leaves_dispatch
  (self : AnyWorker.t) llm sched chunks query task :
  AnyWorker.constructed self ->
  completes_each_once sched (length chunks) ->
  AnyWorker.llm_query_fn self = Some llm ->
  In task (build_tasks chunks query) ->
  llm (_build_prompt task) (_select_model task) = Escapes ->
  AnyWorker.process_chunks_sync self sched chunks query = Escapes
  /\ AnyWorker.process_chunks_async self (clock sched) chunks query
     = if AnyWorker.executor_shutdown self
       then Ends (Returned
                    (repeat
                       (dispatcher_failure
                          (Exc (lit "cannot schedule new futures after shutdown")))
                       (length chunks)))
       else Escapes.
Proof.
  intros Hself Hsched Hllm Hin Hcall.
  pose proof (any_constructed_max_concurrent self Hself) as Hmc.
  assert (Hsingle : forall readings,
             AnyWorker._process_single_chunk self readings task = Escapes).
  { intros readings. unfold AnyWorker._process_single_chunk.
    rewrite Hllm. cbn zeta. now rewrite Hcall. }
  split.
  - unfold AnyWorker.process_chunks_sync, ThreadPoolExecutor.
    destruct (AnyWorker.max_concurrent self <=? 0)%Z eqn:E;
      [apply Z.leb_le in E; lia|].
    cbn [ending_bind].
    rewrite collected_escapes; [reflexivity|].
    eapply Permutation_in.
    + apply Permutation_sym, as_completed_permutation.
      unfold completes_each_once in Hsched.
      now rewrite length_map, build_tasks_length.
    + rewrite <- (Hsingle (clock sched (ChunkTask.id task))).
      exact (in_map
               (fun task =>
                  AnyWorker._process_single_chunk self
                    (clock sched (ChunkTask.id task)) task)
               _ _ Hin).
  - unfold AnyWorker.process_chunks_async.
    destruct (batch_tasks_concat (build_tasks chunks query)
                (AnyWorker.max_concurrent self) Hmc)
      as [batches [-> Hconcat]].
    cbn [ending_bind].
    destruct (AnyWorker.executor_shutdown self) eqn:Hdown.
    + set (checked := {| max_concurrent := AnyWorker.max_concurrent self;
                         llm_query_fn := None;
                         executor_shutdown := true |}).
      assert (Hfold : forall (rest : list (list ChunkTask.t)) acc,
                 fold_left
                   (fun gathered batch =>
                      tasks <~ gathered ;;
                      batch_results <~
                        AnyWorker.gather
                          (map (AnyWorker._process_chunk_async self
                                  (clock sched)) batch) ;;
                      Ends (Returned
                              (fold_left
                                 (fun tasks result =>
                                    match result with
                                    | Raised e =>
                                        tasks ++ [dispatcher_failure e]
                                    | Returned r => tasks ++ [r]
                                    end)
                                 batch_results tasks)))
                   rest (Ends (Returned acc))
                 = Ends (Returned
                           (acc ++ map (async_result checked (clock sched))
                                     (concat rest)))).
      { induction rest as [|batch rest IH]; intros acc;
          cbn [fold_left concat map].
        - now rewrite app_nil_r.
        - cbn [ending_bind].
          rewrite (map_ext
                     (AnyWorker._process_chunk_async self (clock sched))
                     (fun task =>
                        Ends (_process_chunk_async checked
                                (clock sched) task)))
            by (intros task';
                unfold AnyWorker._process_chunk_async, _process_chunk_async;
                now rewrite Hdown).
          rewrite <- (map_map (_process_chunk_async checked (clock sched))
                        Ends).
          rewrite any_gather. cbn [ending_bind].
          now rewrite gathered_batch, IH, map_app, app_assoc. }
      rewrite Hfold, Hconcat. cbn [app]. do 2 f_equal.
      rewrite <- (build_tasks_length chunks query).
      apply map_constant. intros task'.
      now rewrite async_result_cases.
    + apply (gathered_escapes self (clock sched) batches task).
      * now rewrite Hconcat.
      * unfold AnyWorker._process_chunk_async. rewrite Hdown.
        apply Hsingle.
Qed.

End Escapes.

(* ================================================================== *)
(** * Further properties at concrete inputs *)
(* ================================================================== *)

Lemma single_completes : AgentManager.completes_each_once Examples.single 1.
Proof. unfold AgentManager.completes_each_once. reflexivity. Defined.

Lemma other_manager_constructed :
  AgentManager.constructed Examples.other_manager.
Proof.
  apply AgentManager.constructed_cleanup.
  now apply (AgentManager.constructed_init 5 (Some Examples.haiku_only_worker)).
Defined.

(** Three tasks in batches of two. *)
Lemma batch_tasks_partition_witness :
  let tasks :=
    AgentManager.build_tasks Examples.three_chunks (lit "Analyze content") in
  (0 < 2)%Z
  /\ exists batches,
      AgentManager._batch_tasks tasks 2 = Returned batches
      /\ concat batches = tasks
      /\ Forall (fun batch =>
                   0 < length batch /\ (Z.of_nat (length batch) <= 2)%Z)
           batches
      /\ (forall k batch,
             nth_error batches k = Some batch ->
             S k < length batches ->
             Z.of_nat (length batch) = 2%Z)
      /\ Z.of_nat (length batches)
         = ((Z.of_nat (length tasks) + 2 - 1) / 2)%Z.
Proof.
  intros tasks. split; [lia|].
  apply (batch_tasks_partition tasks 2). lia.
Defined.

Example three_tasks_in_two_batches :
  exists first second third,
    AgentManager.build_tasks Examples.three_chunks (lit "Analyze content")
    = [first; second; third]
    /\ AgentManager._batch_tasks [first; second; third] 2
       = Returned [[first; second]; [third]].
Proof. do 3 eexists. split; reflexivity. Qed.

(** Two dict replies that collide on the key ["b"]. *)
Lemma aggregate_merges_dicts_witness :
  AgentManager.successful_are_dicts Examples.dict_results
  /\ (exists r, In r Examples.dict_results /\ Result.error r = None)
  /\ exists merged,
      AgentManager.aggregated
        (AgentManager.aggregate_results (B := example_builtins)
           Examples.dict_results)
      = PDict merged
      /\ forall key,
          dict_get merged key
          = AgentManager.lookup_last
              (AgentManager.successful_items Examples.dict_results) key.
Proof.
  assert (Hdicts : AgentManager.successful_are_dicts Examples.dict_results).
  { intros r [<-|[<-|[<-|[]]]] Herr; simpl in *;
      [eexists; reflexivity|discriminate|eexists; reflexivity]. }
  assert (Hsome : exists r,
             In r Examples.dict_results /\ Result.error r = None).
  { eexists. split; [left; reflexivity|reflexivity]. }
  split; [exact Hdicts|]. split; [exact Hsome|].
  exact (aggregate_merges_dicts (B := example_builtins)
           Examples.dict_results Hdicts Hsome).
Defined.

Example later_dict_wins :
  AgentManager.aggregated
    (AgentManager.aggregate_results (B := example_builtins)
       Examples.dict_results)
  = PDict [(lit "a", PInt 1); (lit "b", PInt 3)].
Proof. vm_compute. reflexivity. Qed.

(** Two managers whose workers differ off the tag ["haiku"] only. *)
Lemma sync_reads_worker_at_prompts_witness :
  AgentManager.constructed (Examples.fresh (Some Examples.picky_worker))
  /\ AgentManager.constructed Examples.other_manager
  /\ AgentManager.completes_each_once Examples.shuffled
       (length Examples.three_chunks)
  /\ (forall task,
         In task (AgentManager.build_tasks Examples.three_chunks
                    (lit "Analyze content")) ->
         Examples.picky_worker
           (AgentManager._build_prompt (B := example_builtins) task)
           (lit "haiku")
         = Examples.haiku_only_worker
             (AgentManager._build_prompt (B := example_builtins) task)
             (lit "haiku"))
  /\ AgentManager.process_chunks_sync (B := example_builtins)
       (Examples.fresh (Some Examples.picky_worker))
       Examples.shuffled Examples.three_chunks (lit "Analyze content")
     = AgentManager.process_chunks_sync (B := example_builtins)
         Examples.other_manager
         Examples.shuffled Examples.three_chunks (lit "Analyze content").
Proof.
  assert (Hagree : forall task,
             In task (AgentManager.build_tasks Examples.three_chunks
                        (lit "Analyze content")) ->
             Examples.picky_worker
               (AgentManager._build_prompt (B := example_builtins) task)
               (lit "haiku")
             = Examples.haiku_only_worker
                 (AgentManager._build_prompt (B := example_builtins) task)
                 (lit "haiku")).
  { intros task _. reflexivity. }
  split; [apply fresh_constructed|].
  split; [apply other_manager_constructed|].
  split; [apply shuffled_completes|].
  split; [exact Hagree|].
  apply (sync_reads_worker_at_prompts (B := example_builtins)
           (Examples.fresh (Some Examples.picky_worker))
           Examples.other_manager
           Examples.picky_worker Examples.haiku_only_worker).
  - apply fresh_constructed.
  - apply other_manager_constructed.
  - reflexivity.
  - reflexivity.
  - apply shuffled_completes.
  - exact Hagree.
Defined.


Example picky_worker_error_entries :
  AgentManager.worker_error_entries (B := example_builtins)
    (Some Examples.picky_worker)
    (AgentManager.build_tasks Examples.three_chunks (lit "Analyze content"))
  = [(1%Z, Some (lit "boom"))].
Proof. vm_compute. reflexivity. Qed.

Lemma async_agrees_with_sync_witness :
  AgentManager.constructed (Examples.fresh (Some Examples.picky_worker))
  /\ AgentManager.executor_shutdown
       (Examples.fresh (Some Examples.picky_worker)) = false
  /\ AgentManager.completes_each_once Examples.shuffled
       (length Examples.three_chunks)
  /\ AgentManager.process_chunks_async (B := example_builtins)
       (Examples.fresh (Some Examples.picky_worker))
       (AgentManager.clock Examples.shuffled)
       Examples.three_chunks (lit "Analyze content")
     = AgentManager.process_chunks_sync (B := example_builtins)
         (Examples.fresh (Some Examples.picky_worker))
         Examples.shuffled Examples.three_chunks (lit "Analyze content").
Proof.
  split; [apply fresh_constructed|].
  split; [reflexivity|].
  split; [apply shuffled_completes|].
  apply (async_agrees_with_sync (B := example_builtins));
    [apply fresh_constructed|reflexivity|apply shuffled_completes].
Defined.

Lemma cleanup_effects_witness :
  let self := Examples.fresh (Some Examples.picky_worker) in
  let refused :=
    repeat
      (AgentManager.dispatcher_failure
         (Exc (lit "cannot schedule new futures after shutdown")))
      (length Examples.three_chunks) in
  AgentManager.constructed self
  /\ AgentManager.process_chunks_sync (B := example_builtins)
       (AgentManager.cleanup self)
       Examples.shuffled Examples.three_chunks (lit "Analyze content")
     = AgentManager.process_chunks_sync (B := example_builtins) self
         Examples.shuffled Examples.three_chunks (lit "Analyze content")
  /\ AgentManager.process_chunks_async (B := example_builtins)
       (AgentManager.cleanup self) (AgentManager.clock Examples.shuffled)
       Examples.three_chunks (lit "Analyze content")
     = Returned refused
  /\ AgentManager.chunks_processed
       (AgentManager.aggregate_results (B := example_builtins) refused) = 0
  /\ AgentManager.chunks_failed
       (AgentManager.aggregate_results (B := example_builtins) refused)
     = length Examples.three_chunks
  /\ AgentManager.aggregated
       (AgentManager.aggregate_results (B := example_builtins) refused)
     = PStr []
  /\ AgentManager.errors
       (AgentManager.aggregate_results (B := example_builtins) refused)
     = repeat ((-1)%Z,
               Some (lit "cannot schedule new futures after shutdown"))
         (length Examples.three_chunks).
Proof.
  intros self refused. split; [apply fresh_constructed|].
  apply (cleanup_effects (B := example_builtins) self
           Examples.shuffled Examples.three_chunks (lit "Analyze content")).
  apply fresh_constructed.
Defined.

(** Two payloads of 10 001 characters that differ in the last one. *)
Lemma payload_tail_is_ignored_witness :
  AgentManager.constructed (Examples.fresh (Some Examples.picky_worker))
  /\ AgentManager.completes_each_once Examples.single
       (length [Examples.long_chunk 120])
  /\ Forall2 (fun chunk1 chunk2 =>
                slice (py_str (B := example_builtins)
                         (AgentManager.chunk_payload chunk1)) 0 10000
                = slice (py_str (B := example_builtins)
                           (AgentManager.chunk_payload chunk2)) 0 10000)
       [Examples.long_chunk 120] [Examples.long_chunk 121]
  /\ AgentManager.process_chunks_sync (B := example_builtins)
       (Examples.fresh (Some Examples.picky_worker))
       Examples.single [Examples.long_chunk 120] (lit "Analyze content")
     = AgentManager.process_chunks_sync (B := example_builtins)
         (Examples.fresh (Some Examples.picky_worker))
         Examples.single [Examples.long_chunk 121] (lit "Analyze content").
Proof.
  assert (Hheads :
            Forall2 (fun chunk1 chunk2 =>
                       slice (py_str (B := example_builtins)
                                (AgentManager.chunk_payload chunk1)) 0 10000
                       = slice (py_str (B := example_builtins)
                                  (AgentManager.chunk_payload chunk2)) 0 10000)
              [Examples.long_chunk 120] [Examples.long_chunk 121]).
  { constructor; [vm_compute; reflexivity|constructor]. }
  split; [apply fresh_constructed|].
  split; [apply single_completes|].
  split; [exact Hheads|].
  apply (payload_tail_is_ignored (B := example_builtins)
           (Examples.fresh (Some Examples.picky_worker))
           Examples.picky_worker);
    [apply fresh_constructed|reflexivity|apply single_completes|exact Hheads].
Defined.

Lemma looks_like_code_in_context_witness :
  TokenEfficiencyAnalyzer._looks_like_code Examples.snippet = true
  /\ TokenEfficiencyAnalyzer._looks_like_code
       (lit "Note: " ++ Examples.snippet ++ lit " (end)") = true.
Proof.
  split; [vm_compute; reflexivity|].
  apply (looks_like_code_in_context (lit "Note: ") Examples.snippet
           (lit " (end)")).
  vm_compute. reflexivity.
Defined.

(** Two spaces, a line feed, a tab and a no-break space. *)
Lemma blank_content_has_no_tokens_witness :
  Forall (fun c => isspace c = true) Examples.blank
  /\ TokenEfficiencyAnalyzer._estimate_tokens_content Examples.blank
     = Returned 0%Z.
Proof.
  assert (Hblank : Forall (fun c => isspace c = true) Examples.blank)
    by (repeat constructor).
  split; [exact Hblank|].
  exact (blank_content_has_no_tokens Examples.blank Hblank).
Defined.

Lemma estimate_file_raises_only_when_missing_witness :
  (forall data,
      Examples.photo_fs (lit "photo.jpg")
      = Some (TokenEfficiencyAnalyzer.Regular data) ->
      (Z.of_nat (length data) < 2 ^ 63)%Z)
  /\ ((exists e,
          TokenEfficiencyAnalyzer._estimate_tokens_file Examples.photo_fs
            (lit "photo.jpg") = Raised e)
      <-> Examples.photo_fs (lit "photo.jpg") = None)
  /\ (Examples.photo_fs (lit "photo.jpg") <> None ->
      exists tokens,
        TokenEfficiencyAnalyzer._estimate_tokens_file Examples.photo_fs
          (lit "photo.jpg") = Returned tokens
        /\ (0 <= tokens)%Z).
Proof.
  assert (Hshort : forall data,
             Examples.photo_fs (lit "photo.jpg")
             = Some (TokenEfficiencyAnalyzer.Regular data) ->
             (Z.of_nat (length data) < 2 ^ 63)%Z).
  { intros data Hnode. vm_compute in Hnode. injection Hnode as <-.
    vm_compute. reflexivity. }
  split; [exact Hshort|].
  exact (estimate_file_raises_only_when_missing Examples.photo_fs
           (lit "photo.jpg") Hshort).
Defined.

Example missing_file_raises :
  exists e,
    TokenEfficiencyAnalyzer._estimate_tokens_file Examples.photo_fs
      (lit "nowhere.txt") = Raised e.
Proof. eexists. vm_compute. reflexivity. Qed.

(** Ten characters for four workers: four chunks of two characters, the
    last two characters are dropped. *)
Lemma parallel_chunks_cut_witness :
  let content := lit "abcdefghij" in
  Examples.ten_reader (lit "notes.txt") = Returned content
  /\ (0 < 4 <= Z.of_nat (length content))%Z
  /\ exists texts,
      RLMBenchmark.parallel_chunks Examples.ten_reader (lit "notes.txt") 4
      = Returned (RLMBenchmark.numbered_chunks 0 texts)
      /\ length texts = Z.to_nat 4
      /\ Forall (fun text => length text = length content / Z.to_nat 4)
           texts
      /\ map AgentManager.chunk_payload (RLMBenchmark.numbered_chunks 0 texts)
         = map PStr texts
      /\ content
         = concat texts
           ++ skipn (length content - length content mod Z.to_nat 4) content
      /\ length (concat texts)
         = length content - length content mod Z.to_nat 4.
Proof.
  intros content. split; [reflexivity|].
  split; [vm_compute; split; [reflexivity|discriminate]|].
  apply (parallel_chunks_cut Examples.ten_reader (lit "notes.txt") 4 content).
  - reflexivity.
  - vm_compute. split; [reflexivity|discriminate].
Defined.

Example ten_characters_for_four :
  RLMBenchmark.parallel_chunks Examples.ten_reader (lit "notes.txt") 4
  = Returned
      (RLMBenchmark.numbered_chunks 0
         [lit "ab"; lit "cd"; lit "ef"; lit "gh"]).
Proof. vm_compute. reflexivity. Qed.

(** Two characters for four workers. *)
Lemma parallel_chunks_fallback_witness :
  (0 < 4)%Z
  /\ (forall content,
         Examples.two_reader (lit "notes.txt") = Returned content ->
         (Z.of_nat (length content) < 4)%Z)
  /\ RLMBenchmark.parallel_chunks Examples.two_reader (lit "notes.txt") 4
     = Returned [RLMBenchmark.fallback_chunk].
Proof.
  assert (Hshort : forall content,
             Examples.two_reader (lit "notes.txt") = Returned content ->
             (Z.of_nat (length content) < 4)%Z).
  { intros content Hread. injection Hread as <-. vm_compute. reflexivity. }
  split; [lia|]. split; [exact Hshort|].
  apply (parallel_chunks_fallback Examples.two_reader (lit "notes.txt") 4);
    [lia|exact Hshort].
Defined.

(** Ten characters for three workers, completed out of order. *)
Lemma process_with_parallel_reply_witness :
  AgentManager.completes_each_once Examples.shuffled 3
  /\ ((0 < 3)%Z ->
      exists reply,
        RLMBenchmark._process_with_parallel (B := example_builtins)
          Examples.ten_reader Examples.shuffled (lit "notes.txt") 3
        = Returned reply
        /\ RLMBenchmark.type reply = lit "rlm_parallel"
        /\ RLMBenchmark.strategy reply = lit "parallel"
        /\ RLMBenchmark.chunks_processed reply = 3
        /\ AgentManager.chunks_processed (RLMBenchmark.result reply) = 3
        /\ AgentManager.chunks_failed (RLMBenchmark.result reply) = 0
        /\ AgentManager.errors (RLMBenchmark.result reply) = [])
  /\ ((3 <= 0)%Z ->
      RLMBenchmark._process_with_parallel (B := example_builtins)
        Examples.ten_reader Examples.shuffled (lit "notes.txt") 3
      = Raised (Exc (lit "max_workers must be greater than 0"))).
Proof.
  split; [apply shuffled_completes|].
  apply (process_with_parallel_reply (B := example_builtins)
           Examples.ten_reader Examples.shuffled (lit "notes.txt") 3).
  apply shuffled_completes.
Defined.


(** The exit of the worker for the chunk with id 1 ends both dispatch
    methods of a manager whose pool is live. *)
Lemma escaping_call_leaves_dispatch_witness :
  let self := Examples.fresh_with (Some Examples.exiting_callable) in
  AnyWorker.constructed self
  /\ AgentManager.completes_each_once Examples.shuffled
       (length Examples.three_chunks)
  /\ exists task,
      In task
        (AgentManager.build_tasks Examples.three_chunks
           (lit "Analyze content"))
      /\ Examples.exiting_callable
           (AgentManager._build_prompt (B := example_builtins) task)
           (AgentManager._select_model task) = Escapes
      /\ AnyWorker.process_chunks_sync (B := example_builtins) self
           Examples.shuffled Examples.three_chunks (lit "Analyze content")
         = Escapes
      /\ AnyWorker.process_chunks_async (B := example_builtins) self
           (AgentManager.clock Examples.shuffled)
           Examples.three_chunks (lit "Analyze content")
         = if AnyWorker.executor_shutdown self
           then Ends (Returned
                        (repeat
                           (AgentManager.dispatcher_failure
                              (Exc (lit "cannot schedule new futures after shutdown")))
                           (length Examples.three_chunks)))
           else Escapes.
Proof.
  intros self.
  split; [apply fresh_with_constructed|].
  split; [apply shuffled_completes|].
  eexists. split; [right; left; reflexivity|].
  split; [vm_compute; reflexivity|].
  eapply (escaping_call_leaves_dispatch (B := example_builtins) self
            Examples.exiting_callable).
  - apply fresh_with_constructed.
  - apply shuffled_completes.
  - reflexivity.
  - right. left. reflexivity.
  - vm_compute. reflexivity.
Defined.

(** After [cleanup()] the same callable is never reached by
    [process_chunks_async]. *)
Example cleaned_up_async_skips_the_callable :
  AnyWorker.process_chunks_async (B := example_builtins)
    (AnyWorker.cleanup (Examples.fresh_with (Some Examples.exiting_callable)))
    Examples.steady_clock Examples.three_chunks (lit "Analyze content")
  = Ends (Returned [Examples.refused; Examples.refused; Examples.refused]).
Proof. vm_compute. reflexivity. Qed.

